(** * MathJax TeX input: package configurations (ts/input/tex/Configuration.ts)

    A shallow embedding of the classes [Configuration] and
    [ParserConfiguration] and of the namespace [ConfigurationHandler],
    followed by the properties of the registration and merge layer.

    Conventions of the embedding.
    - JavaScript objects used as dictionaries are finite maps ([gmap]);
      [Object.assign target source] is the union in which [source] wins.
    - A field that the class declares but never initialises is [None]
      ([undefined]); reading a property of it throws.
    - A method that can throw returns a [completion]; every exception these
      methods can raise is a [TypeError].
    - Callables are opaque: a function value is identified by a name, and
      invoking one is recorded as an [Event] of an explicit trace.  What a
      callback does to the objects it receives is outside the embedding.
    - Arrays and objects are values.  [append] copies the elements and the
      bindings of an entry into the parser configuration and never stores an
      array or object of the entry itself, so the two share nothing that is
      written to. *)

From stdpp Require Import gmap strings list fin_maps sorting.

Local Open Scope Z_scope.

(** ** JavaScript values *)

Definition Func := string.

#[warnings="-register-all"]
Inductive Value :=
| VUndefined
| VNull
| VBool (b : bool)
| VNum (n : Z)
| VFun (f : Func)
| VArr (elems : list Value).

(** ToBoolean: [undefined], [null], [false] and [0] are falsy; functions and
    arrays (also the empty one) are truthy.  A number value is an integer
    here; NaN is modelled where a priority is supplied ([Number]). *)
Definition truthy (v : Value) : bool :=
  match v with
  | VUndefined | VNull => false
  | VBool b => b
  | VNum n => negb (Z.eqb n 0)
  | VFun _ | VArr _ => true
  end.

(** [Array.isArray] *)
Definition isArray (v : Value) : bool :=
  match v with VArr _ => true | _ => false end.

(** [typeof v === 'function'] *)
Definition isFunction (v : Value) : bool :=
  match v with VFun _ => true | _ => false end.

(** [a || b] *)
Definition or_else (a b : Value) : Value := if truthy a then a else b.

(** ** Completions *)

Inductive completion (A : Type) :=
| Normal (a : A)
| TypeError.
Arguments Normal {A} a.
Arguments TypeError {A}.

Global Instance completion_ret : MRet completion := λ A, Normal.
Global Instance completion_bind : MBind completion :=
  λ A B f m, match m with Normal a => f a | TypeError => TypeError end.

(** [for (const x of xs) body], threading the state [s]. *)
Fixpoint for_of {S A : Type} (xs : list A) (body : S → A → completion S) (s : S)
  : completion S :=
  match xs with
  | [] => Normal s
  | x :: xs' => s' ← body s x; for_of xs' body s'
  end.

(** [v[i]]: throws on [undefined] and [null], is [undefined] outside an
    array or past its end. *)
Definition get_index (v : Value) (i : nat) : completion Value :=
  match v with
  | VUndefined | VNull => TypeError
  | VArr elems => Normal (default VUndefined (elems !! i))
  | VBool _ | VNum _ | VFun _ => Normal VUndefined
  end.

(** [for ... of] over a value that may be [undefined]. *)
Definition iterate {A : Type} (xs : option (list A)) : completion (list A) :=
  match xs with Some l => Normal l | None => TypeError end.

(** [Object.assign(target, source)]: the keys of [source] overwrite those of
    [target]; an [undefined] target throws. *)
Definition Object_assign `{Countable K} {V : Type}
    (target : option (gmap K V)) (source : gmap K V) : completion (option (gmap K V)) :=
  match target with
  | Some t => Normal (Some (source ∪ t))
  | None => TypeError
  end.

(** [arr.push(x)] on a field that may be [undefined]. *)
Definition push {A : Type} (arr : option (list A)) (x : A) : completion (option (list A)) :=
  match arr with
  | Some l => Normal (Some (l ++ [x]))
  | None => TypeError
  end.

(** ** Handler types (MapHandler.ts: [HandlerType]) *)

Inductive HandlerType := character | delimiter | macro | environment.

Global Instance HandlerType_eq_dec : EqDecision HandlerType.
Proof. solve_decision. Defined.

Global Instance HandlerType_countable : Countable HandlerType.
Proof.
  refine (inj_countable'
    (λ k, match k with
          | character => 0%nat | delimiter => 1%nat
          | macro => 2%nat | environment => 3%nat end)
    (λ n, match n with
          | 0%nat => character | 1%nat => delimiter
          | 2%nat => macro | _ => environment end) _).
  by intros [].
Defined.

Abbreviation HandlerConfig := (gmap HandlerType (list string)).
Abbreviation FallbackConfig := (gmap HandlerType Value).
Abbreviation StackItemConfig := (gmap string Value).
Abbreviation TagsConfig := (gmap string Value).
Abbreviation OptionList := (gmap string Value).
Abbreviation NodeConfig := (gmap string Value).
(** [Processor = Function | [Function, number]]: kept as a [Value], since the
    constructor stores other shapes in fields of this type. *)
Abbreviation ProcessorList := (list Value).

(** The categories in the order of the object literal of the constructor. *)
Definition HandlerTypes : list HandlerType :=
  [character; delimiter; macro; environment].

(** [Object.keys] of a handler object. *)
Definition handler_keys (h : HandlerConfig) : list HandlerType :=
  filter (λ k, is_Some (h !! k)) HandlerTypes.

(** Modelled from the spec: util/Options.ts ([defaultOptions], [userOptions])
    is not among the sources.  [defaultOptions] adds the option names of
    [defs] that [options] does not have yet and leaves the present ones
    untouched.  [userOptions] lets the explicitly supplied options take
    final precedence. *)
Definition defaultOptions (options : OptionList) (defs : OptionList) : OptionList :=
  options ∪ defs.

(** Modelled from the spec: the options supplied by the user override the
    ones present. *)
Definition userOptions (options : OptionList) (user : OptionList) : OptionList :=
  user ∪ options.

(** ** Priority lists and function lists (util/PrioritizedList.ts,
    util/FunctionList.ts) *)

Module PrioritizedList.

(** Modelled from the spec: util/PrioritizedList.ts is not among the sources.
    An entry pairs an item with its priority.  The priority is kept as the
    value the caller passed, since [append] does not always pass a number. *)
Record entry (T : Type) := Entry { item : T; priority : Value }.
Arguments Entry {T} item priority.
Arguments item {T} e.
Arguments priority {T} e.

(** Modelled from the spec: the priority used when the caller gives none. *)
Definition DEFAULTPRIORITY : Z := 5.

(** Modelled from the spec: the order on priorities.  The specification
    orders numeric priorities; a priority that is not a number compares as
    unordered. *)
Definition lessThan (a b : Value) : bool :=
  match a, b with
  | VNum x, VNum y => Z.ltb x y
  | _, _ => false
  end.

(** Modelled from the spec: insertion keeps ascending priority order, and an
    item added earlier stays before a later one of the same priority. *)
Fixpoint insert {T : Type} (e : entry T) (l : list (entry T)) : list (entry T) :=
  match l with
  | [] => [e]
  | x :: l' =>
      if lessThan (priority e) (priority x) then e :: x :: l'
      else x :: insert e l'
  end.

(** Modelled from the spec: [add(item, priority)], the priority being 5 when
    the caller leaves it unspecified. *)
Definition add {T : Type} (l : list (entry T)) (x : T) (prio : Value)
  : list (entry T) :=
  let prio := match prio with VUndefined => VNum DEFAULTPRIORITY | _ => prio end in
  insert (Entry x prio) l.

(** The items in iteration order. *)
Definition toList {T : Type} (l : list (entry T)) : list T := item <$> l.

End PrioritizedList.

Abbreviation PrioritizedList T := (list (PrioritizedList.entry T)).
Abbreviation FunctionList := (list (PrioritizedList.entry Value)).

(** The arguments a hook is called with, and the calls observed. *)
Inductive Arg := AConfiguration | AJax.
Inductive Event := Call (f : Func) (args : list Arg).

(** Calling a value: only a function can be called. *)
Definition call (v : Value) (args : list Arg) (trace : list Event)
  : completion (list Event) :=
  match v with
  | VFun f => Normal (trace ++ [Call f args])
  | _ => TypeError
  end.

Module FunctionList.

(** Modelled from the spec: util/FunctionList.ts is not among the sources.
    [execute] calls every item in list order with the same arguments and
    ends at once when a callable signals stop ([stops] tells which
    callables do). *)
Fixpoint execute (stops : Func → bool) (l : FunctionList) (args : list Arg)
    (trace : list Event) : completion (list Event) :=
  match l with
  | [] => Normal trace
  | e :: l' =>
      match PrioritizedList.item e with
      | VFun f =>
          if stops f then Normal (trace ++ [Call f args])
          else execute stops l' args (trace ++ [Call f args])
      | _ => TypeError
      end
  end.

End FunctionList.

(** ** class Configuration *)

Module Configuration.

Record t := Build {
  name : string;
  handler : HandlerConfig;
  fallback : FallbackConfig;
  items : StackItemConfig;
  tags : TagsConfig;
  options : OptionList;
  nodes : NodeConfig;
  preprocessors : ProcessorList;
  postprocessors : ProcessorList;
  init : Value;
  config : Value;
  priority : Z
}.

(** [if (hook || !Array.isArray(hook)) hook = [hook, priority]] *)
Definition wrap_hook (hook : Value) (priority : Z) : Value :=
  if truthy hook || negb (isArray hook)
  then VArr [hook; VNum priority]
  else hook.

(** The object literal the supplied handlers are assigned onto. *)
Definition default_handler : HandlerConfig :=
  {[ character := []; delimiter := []; macro := []; environment := [] ]}.

Definition constructor (name : string) (handler : HandlerConfig)
    (fallback : FallbackConfig) (items : StackItemConfig) (tags : TagsConfig)
    (options : OptionList) (nodes : NodeConfig)
    (preprocessors postprocessors : ProcessorList)
    (init config : Value) (priority : Z) : t :=
  {| name := name;
     handler := handler ∪ default_handler;
     fallback := fallback;
     items := items;
     tags := tags;
     options := options;
     nodes := nodes;
     preprocessors := preprocessors;
     postprocessors := postprocessors;
     init := wrap_hook init priority;
     config := wrap_hook config priority;
     priority := priority |}.

End Configuration.

(** ** namespace ConfigurationHandler *)

Abbreviation Registry := (gmap string Configuration.t).

Module ConfigurationHandler.

Definition set (name : string) (map : Configuration.t) (maps : Registry)
  : Registry := <[name := map]> maps.

Definition get (name : string) (maps : Registry) : option Configuration.t :=
  maps !! name.

Definition keys (maps : Registry) : gset string := dom maps.

End ConfigurationHandler.

(** ** Configuration.create *)

(** A number as [create] can be given one for a priority: NaN or an
    integer. *)
Inductive Number := NaN | Num (z : Z).

(** ToBoolean of a number: 0 and NaN are falsy. *)
Definition truthy_number (n : Number) : bool :=
  match n with
  | NaN => false
  | Num z => negb (Z.eqb z 0)
  end.

(** The [config] argument of [create]: every member is optional. *)
Record CreateParams := {
  cp_handler : option HandlerConfig;
  cp_fallback : option FallbackConfig;
  cp_items : option StackItemConfig;
  cp_tags : option TagsConfig;
  cp_options : option OptionList;
  cp_nodes : option NodeConfig;
  cp_preprocessors : option ProcessorList;
  cp_postprocessors : option ProcessorList;
  cp_init : option Value;
  cp_config : option Value;
  cp_priority : option Number
}.

(** The default value [{}] of the [config] argument. *)
Definition no_params : CreateParams :=
  {| cp_handler := None; cp_fallback := None; cp_items := None;
     cp_tags := None; cp_options := None; cp_nodes := None;
     cp_preprocessors := None; cp_postprocessors := None;
     cp_init := None; cp_config := None; cp_priority := None |}.

(** [config.init || null] for an optional member. *)
Definition hook_or_null (hook : option Value) : Value :=
  or_else (default VUndefined hook) VNull.

(** [config.priority || 5]: the supplied number when it is truthy, 5 when
    the member is absent ([undefined]) or the number is falsy (0 or NaN).
    The result is never NaN, so the priority of an entry is an integer. *)
Definition priority_or_5 (priority : option Number) : Z :=
  match priority with
  | Some (Num z) => if truthy_number (Num z) then z else 5
  | Some NaN => 5
  | None => 5
  end.

(** [Configuration.create] (it uses the registry, hence its place after
    [ConfigurationHandler]): returns the new configuration and the registry
    after [ConfigurationHandler.set].  Objects and arrays are truthy, so
    [x || {}] and [x || []] replace an absent member only. *)
Definition Configuration_create (name : string) (config : CreateParams)
    (maps : Registry) : Configuration.t * Registry :=
  let configuration :=
    Configuration.constructor name
      (default ∅ (cp_handler config))
      (default ∅ (cp_fallback config))
      (default ∅ (cp_items config))
      (default ∅ (cp_tags config))
      (default ∅ (cp_options config))
      (default ∅ (cp_nodes config))
      (default [] (cp_preprocessors config))
      (default [] (cp_postprocessors config))
      (hook_or_null (cp_init config))
      (hook_or_null (cp_config config))
      (priority_or_5 (cp_priority config)) in
  (configuration, ConfigurationHandler.set name configuration maps).

Definition Configuration_empty (maps : Registry) : Configuration.t * Registry :=
  Configuration_create "empty" no_params maps.

(** ** The host engine, as far as this file touches it *)

(** Modelled from the spec: ts/input/tex.ts, ParseOptions.ts and
    MapHandler.ts ([SubHandlers]) are not among the sources.  The parse
    options cache the flattened handler lists, hold the node creators and the
    stack item classes, and the option tree; the engine has two filter chains
    in which the processors are installed. *)
Record ParseOptions := {
  po_handlers : option HandlerConfig;
  po_nodeCreators : NodeConfig;
  po_itemClasses : StackItemConfig;
  po_options : OptionList
}.

Record TeX := {
  parseOptions : ParseOptions;
  preFilters : FunctionList;
  postFilters : FunctionList
}.

(** An element of the [packages] argument: [string | [string, number]]. *)
Inductive Package :=
| PkgName (name : string)
| PkgPrio (name : string) (priority : Z).

Definition package_name (key : Package) : string :=
  match key with PkgName name | PkgPrio name _ => name end.

(** ** class ParserConfiguration *)

Module ParserConfiguration.

Record t := Build {
  initMethod : FunctionList;
  configMethod : FunctionList;
  configurations : PrioritizedList Configuration.t;
  handler : option HandlerConfig;
  fallback : option FallbackConfig;
  items : option StackItemConfig;
  tags : option TagsConfig;
  options : option OptionList;
  nodes : option NodeConfig;
  preprocessors : option ProcessorList;
  postprocessors : option ProcessorList
}.

(** [init()] *)
Definition init (stops : Func → bool) (this : t) (trace : list Event)
  : completion (list Event) :=
  FunctionList.execute stops (initMethod this) [AConfiguration] trace.

(** [typeof p === 'function' ? filters.add(p) : filters.add(p[0], p[1])] *)
Definition install (filters : FunctionList) (p : Value) : completion FunctionList :=
  if isFunction p then Normal (PrioritizedList.add filters p VUndefined)
  else
    f ← get_index p 0;
    n ← get_index p 1;
    Normal (PrioritizedList.add filters f n).

(** [config(jax)] *)
Definition config (stops : Func → bool) (this : t) (jax : TeX)
    (trace : list Event) : completion (TeX * list Event) :=
  trace' ← FunctionList.execute stops (configMethod this)
             [AConfiguration; AJax] trace;
  pres ← iterate (preprocessors this);
  preFilters' ← for_of pres install (preFilters jax);
  posts ← iterate (postprocessors this);
  postFilters' ← for_of posts install (postFilters jax);
  Normal ({| parseOptions := parseOptions jax;
             preFilters := preFilters';
             postFilters := postFilters' |}, trace').

(** [this.handler[key].unshift(map)] *)
Definition unshift (key : HandlerType) (h : option HandlerConfig) (map : string)
  : completion (option HandlerConfig) :=
  match h with
  | None => TypeError
  | Some hc =>
      match hc !! key with
      | Some l => Normal (Some (<[key := map :: l]> hc))
      | None => TypeError
      end
  end.

(** [defaultOptions(this.options, defs)] on a field that may be [undefined]:
    the defaults are written into the target, which throws as soon as there
    is one to write. *)
Definition defaultOptions_into (target : option OptionList) (defs : OptionList)
  : completion (option OptionList) :=
  match target with
  | Some o => Normal (Some (defaultOptions o defs))
  | None => if decide (size defs = 0%nat) then Normal None else TypeError
  end.

(** [if (hook) { list.add(hook[i], hook[j]) }] *)
Definition add_hook (list : FunctionList) (hook : Value) (i j : nat)
  : completion FunctionList :=
  if truthy hook then
    x ← get_index hook i;
    p ← get_index hook j;
    Normal (PrioritizedList.add list x p)
  else Normal list.

(** [append(config)] *)
Definition append (this : t) (config : Configuration.t) : completion t :=
  let handlers := handler_keys (Configuration.handler config) in
  handler' ← for_of handlers
      (λ h key, for_of (default [] (Configuration.handler config !! key))
                  (unshift key) h)
      (handler this);
  fallback' ← Object_assign (fallback this) (Configuration.fallback config);
  items' ← Object_assign (items this) (Configuration.items config);
  tags' ← Object_assign (tags this) (Configuration.tags config);
  options' ← defaultOptions_into (options this) (Configuration.options config);
  nodes' ← Object_assign (nodes this) (Configuration.nodes config);
  preprocessors' ← for_of (Configuration.preprocessors config) push
                     (preprocessors this);
  postprocessors' ← for_of (Configuration.postprocessors config) push
                      (postprocessors this);
  initMethod' ← add_hook (initMethod this) (Configuration.init config) 0 0;
  configMethod' ← add_hook (configMethod this) (Configuration.config config) 0 1;
  Normal {| initMethod := initMethod';
            configMethod := configMethod';
            configurations := configurations this;
            handler := handler';
            fallback := fallback';
            items := items';
            tags := tags';
            options := options';
            nodes := nodes';
            preprocessors := preprocessors';
            postprocessors := postprocessors' |}.

(** Modelled from the spec: [new SubHandlers(this)] (MapHandler.ts) rebuilds
    the lookup structure that caches the flattened handler lists. *)
Definition SubHandlers (this : t) : completion HandlerConfig :=
  match handler this with Some h => Normal h | None => TypeError end.

(** [register(config, jax, options)].  [setCreators] and [setNodeClass]
    (NodeFactory.ts, StackItemFactory.ts, not among the sources) bind the
    entry's node creators and stack item classes over the present ones. *)
Definition register (this : t) (config : Configuration.t) (jax : TeX)
    (user : OptionList) (trace : list Event)
  : completion (t * TeX * list Event) :=
  this' ← append this config;
  trace1 ← call (Configuration.init config) [AConfiguration] trace;
  let parser := parseOptions jax in
  handlers' ← SubHandlers this';
  let nodeCreators' := Configuration.nodes config ∪ po_nodeCreators parser in
  let itemClasses' := Configuration.items config ∪ po_itemClasses parser in
  let options' :=
    userOptions (defaultOptions (po_options parser) (Configuration.options config))
                user in
  let jax' := {| parseOptions := {| po_handlers := Some handlers';
                                    po_nodeCreators := nodeCreators';
                                    po_itemClasses := itemClasses';
                                    po_options := options' |};
                 preFilters := preFilters jax;
                 postFilters := postFilters jax |} in
  trace2 ← call (Configuration.config config) [AConfiguration; AJax] trace1;
  Normal (this', jax', trace2).

(** One round of the loop of the constructor. *)
Definition add_package (maps : Registry)
    (configurations : PrioritizedList Configuration.t) (key : Package)
  : PrioritizedList Configuration.t :=
  let name := package_name key in
  match ConfigurationHandler.get name maps with
  | Some conf =>
      PrioritizedList.add configurations conf
        (VNum (match key with
               | PkgName _ => Configuration.priority conf
               | PkgPrio _ p => p
               end))
  | None => configurations
  end.

(** [new ParserConfiguration(packages)]: the field initialisers, then the
    loop over the packages.  The other fields are declared without a value. *)
Definition constructor (packages : list Package) (maps : Registry) : t :=
  {| initMethod := [];
     configMethod := [];
     configurations := foldl (add_package maps) [] packages;
     handler := None;
     fallback := None;
     items := None;
     tags := None;
     options := None;
     nodes := None;
     preprocessors := None;
     postprocessors := None |}.

End ParserConfiguration.

(** ** Example values used by the closed lemmas below *)

(** The specification's empty active configuration: every merged field is
    present and empty. *)
Definition empty_ActiveConfiguration : ParserConfiguration.t :=
  {| ParserConfiguration.initMethod := [];
     ParserConfiguration.configMethod := [];
     ParserConfiguration.configurations := [];
     ParserConfiguration.handler := Some Configuration.default_handler;
     ParserConfiguration.fallback := Some ∅;
     ParserConfiguration.items := Some ∅;
     ParserConfiguration.tags := Some ∅;
     ParserConfiguration.options := Some ∅;
     ParserConfiguration.nodes := Some ∅;
     ParserConfiguration.preprocessors := Some [];
     ParserConfiguration.postprocessors := Some [] |}.

(** [{handler: {macro: maps}}] *)
Definition macro_params (maps : list string) : CreateParams :=
  {| cp_handler := Some {[ macro := maps ]}; cp_fallback := None;
     cp_items := None; cp_tags := None; cp_options := None; cp_nodes := None;
     cp_preprocessors := None; cp_postprocessors := None;
     cp_init := None; cp_config := None; cp_priority := None |}.

(** [{init: i, config: c}] *)
Definition hook_params (i c : option Value) : CreateParams :=
  {| cp_handler := None; cp_fallback := None;
     cp_items := None; cp_tags := None; cp_options := None; cp_nodes := None;
     cp_preprocessors := None; cp_postprocessors := None;
     cp_init := i; cp_config := c; cp_priority := None |}.

(** [{postprocessors: ps}] *)
Definition post_params (ps : ProcessorList) : CreateParams :=
  {| cp_handler := None; cp_fallback := None;
     cp_items := None; cp_tags := None; cp_options := None; cp_nodes := None;
     cp_preprocessors := None; cp_postprocessors := Some ps;
     cp_init := None; cp_config := None; cp_priority := None |}.

(** [{priority: p}] *)
Definition priority_params (p : Z) : CreateParams :=
  {| cp_handler := None; cp_fallback := None;
     cp_items := None; cp_tags := None; cp_options := None; cp_nodes := None;
     cp_preprocessors := None; cp_postprocessors := None;
     cp_init := None; cp_config := None; cp_priority := Some (Num p) |}.

(** No callable signals stop. *)
Definition never_stops : Func → bool := λ _, false.

(** A description whose init hook is a pair without a callable and whose
    ready hook is a number. *)
Definition malformed_params : CreateParams :=
  hook_params (Some (VArr [VNull; VNum 3])) (Some (VNum 7)).

(** Every merged field of [A] is present, and its handler object has the
    four categories. *)
Definition populated (A : ParserConfiguration.t) : Prop :=
  (∃ h, ParserConfiguration.handler A = Some h ∧ ∀ k, is_Some (h !! k))
  ∧ is_Some (ParserConfiguration.fallback A)
  ∧ is_Some (ParserConfiguration.items A)
  ∧ is_Some (ParserConfiguration.tags A)
  ∧ is_Some (ParserConfiguration.options A)
  ∧ is_Some (ParserConfiguration.nodes A)
  ∧ is_Some (ParserConfiguration.preprocessors A)
  ∧ is_Some (ParserConfiguration.postprocessors A).

(** The name of a package is registered. *)
Definition known (maps : Registry) (key : Package) : Prop :=
  is_Some (ConfigurationHandler.get (package_name key) maps).

Global Instance known_dec maps key : Decision (known maps key).
Proof. unfold known. apply _. Defined.

(** The empty active configuration with [prev] as its macro handlers. *)
Definition with_macro (prev : list string) : ParserConfiguration.t :=
  {| ParserConfiguration.initMethod := [];
     ParserConfiguration.configMethod := [];
     ParserConfiguration.configurations := [];
     ParserConfiguration.handler :=
       Some (<[macro := prev]> Configuration.default_handler);
     ParserConfiguration.fallback := Some ∅;
     ParserConfiguration.items := Some ∅;
     ParserConfiguration.tags := Some ∅;
     ParserConfiguration.options := Some ∅;
     ParserConfiguration.nodes := Some ∅;
     ParserConfiguration.preprocessors := Some [];
     ParserConfiguration.postprocessors := Some [] |}.

(** The handler rule of the append step as the specification words it: the
    names an entry contributes to a category come before the previous ones,
    in the entry's own order. *)
Definition append_keeps_entry_order : Prop :=
  ∀ (A : ParserConfiguration.t) (E : Configuration.t) (hA : HandlerConfig)
    (cat : HandlerType) (prev maps : list string),
    populated A →
    ParserConfiguration.handler A = Some hA → hA !! cat = Some prev →
    Configuration.handler E !! cat = Some maps →
    ∃ A' hA', ParserConfiguration.append A E = Normal A'
              ∧ ParserConfiguration.handler A' = Some hA'
              ∧ hA' !! cat = Some (maps ++ prev).

(** [{handler: {macro: ["m-base"]}, init: f}] *)
Definition base_params : CreateParams :=
  {| cp_handler := Some {[ macro := ["m-base"] ]}; cp_fallback := None;
     cp_items := None; cp_tags := None; cp_options := None; cp_nodes := None;
     cp_preprocessors := None; cp_postprocessors := None;
     cp_init := Some (VFun "f"); cp_config := None; cp_priority := None |}.

(** The construction as the specification words it (section 4.5, steps 1 to
    4): the found entries, in the order of the priority list, are folded with
    [append] into the empty active configuration, and then the init chain is
    executed. *)
Definition construct_as_specified (stops : Func → bool)
    (packages : list Package) (maps : Registry) (trace : list Event)
  : completion (ParserConfiguration.t * list Event) :=
  let found :=
    ParserConfiguration.configurations
      (ParserConfiguration.constructor packages maps) in
  A ← for_of (PrioritizedList.toList found) ParserConfiguration.append
        empty_ActiveConfiguration;
  trace' ← ParserConfiguration.init stops A trace;
  Normal (A, trace').

(** The entry a package stands for, with the priority it is listed at. *)
Definition package_entry (maps : Registry) (key : Package)
  : option (PrioritizedList.entry Configuration.t) :=
  conf ← ConfigurationHandler.get (package_name key) maps;
  Some (PrioritizedList.Entry conf
          (VNum (match key with
                 | PkgName _ => Configuration.priority conf
                 | PkgPrio _ p => p
                 end))).

(** The priorities of a list are numbers in ascending order. *)
Definition ascending {T : Type} (l : PrioritizedList T) : Prop :=
  ∃ zs : list Z,
    PrioritizedList.priority <$> l = VNum <$> zs ∧ StronglySorted Z.le zs.

(** [{fallback: {macro: fb}, items: {foo: Foo}, tags: {ams: Ams},
    nodes: {mi: mk}, preprocessors: [pre], postprocessors: [[post, 7]]}] *)
Definition behaviour_params : CreateParams :=
  {| cp_handler := None;
     cp_fallback := Some {[ macro := VFun "fb" ]};
     cp_items := Some {[ "foo" := VFun "Foo" ]};
     cp_tags := Some {[ "ams" := VFun "Ams" ]};
     cp_options := None;
     cp_nodes := Some {[ "mi" := VFun "mk" ]};
     cp_preprocessors := Some [VFun "pre"];
     cp_postprocessors := Some [VArr [VFun "post"; VNum 7]];
     cp_init := None; cp_config := None; cp_priority := None |}.

(** The filter entry of a processor of the declared shape
    [Function | [Function, number]]: a function goes in at the default
    priority, a pair at its own. *)
Definition processor_entry (p : Value) : option (PrioritizedList.entry Value) :=
  match p with
  | VFun f =>
      Some (PrioritizedList.Entry (VFun f) (VNum PrioritizedList.DEFAULTPRIORITY))
  | VArr [VFun f; VNum n] => Some (PrioritizedList.Entry (VFun f) (VNum n))
  | _ => None
  end.

(** An engine without filters. *)
Definition bare_jax : TeX :=
  {| parseOptions := {| po_handlers := None; po_nodeCreators := ∅;
                        po_itemClasses := ∅; po_options := ∅ |};
     preFilters := [];
     postFilters := [] |}.

(** A populated configuration with one preprocessor, one paired
    postprocessor and an empty ready chain. *)
Definition with_processors : ParserConfiguration.t :=
  {| ParserConfiguration.initMethod := [];
     ParserConfiguration.configMethod := [];
     ParserConfiguration.configurations := [];
     ParserConfiguration.handler := Some Configuration.default_handler;
     ParserConfiguration.fallback := Some ∅;
     ParserConfiguration.items := Some ∅;
     ParserConfiguration.tags := Some ∅;
     ParserConfiguration.options := Some ∅;
     ParserConfiguration.nodes := Some ∅;
     ParserConfiguration.preprocessors := Some [VFun "pre"];
     ParserConfiguration.postprocessors := Some [VArr [VFun "post"; VNum 7]] |}.

(** * Properties *)

(** ** Entry construction *)

Lemma wrap_hook_always hook priority :
  Configuration.wrap_hook hook priority = VArr [hook; VNum priority].
Proof.
  unfold Configuration.wrap_hook.
  destruct hook as [| | b | n | f | elems]; simpl; try reflexivity.
  - by rewrite orb_true_r.
  - by rewrite orb_true_r.
Qed.

Lemma default_handler_lookup (cat : HandlerType) :
  Configuration.default_handler !! cat = Some [].
Proof. by destruct cat. Qed.

Lemma constructor_handler_lookup name h fb it tg op nd pre post i c p cat :
  Configuration.handler
    (Configuration.constructor name h fb it tg op nd pre post i c p) !! cat
  = Some (default [] (h !! cat)).
Proof.
  simpl. rewrite lookup_union, default_handler_lookup.
  by destruct (h !! cat).
Qed.

Lemma priority_or_5_cases (p : option Number) :
  priority_or_5 p = match p with
                    | Some (Num n) => if decide (n = 0) then 5 else n
                    | Some NaN | None => 5
                    end.
Proof.
  destruct p as [[|n]|]; [reflexivity| |reflexivity].
  unfold priority_or_5, truthy_number.
  destruct (Z.eqb_spec n 0); case_decide; simpl; congruence.
Qed.

Lemma priority_or_5_nonzero (p : option Number) : priority_or_5 p ≠ 0.
Proof.
  rewrite priority_or_5_cases. destruct p as [[|n]|]; [done| |done].
  case_decide; [done | assumption].
Qed.

(** C6.  An entry made by [create] has all four handler categories: a
    category the caller supplied keeps the supplied sequence, every other one
    is bound to the empty sequence. *)
Theorem create_handler_categories (name : string) (config : CreateParams)
    (maps : Registry) (cat : HandlerType) :
  Configuration.handler (Configuration_create name config maps).1 !! cat
  = Some (default [] (cp_handler config ≫= (.!! cat))).
Proof.
  unfold Configuration_create. cbn [fst].
  rewrite constructor_handler_lookup.
  destruct (cp_handler config) as [h|]; simpl; [done|].
  by rewrite lookup_empty.
Qed.

(** C10.  A supplied priority that is falsy (absent, 0 or NaN) gives the
    entry the default priority 5, and no entry made by [create] has the
    default priority 0. *)
Theorem create_priority_falsy (name : string) (config : CreateParams)
    (maps : Registry)
    (Hfalsy : cp_priority config = None
              ∨ cp_priority config = Some (Num 0)
              ∨ cp_priority config = Some NaN) :
  Configuration.priority (Configuration_create name config maps).1 = 5
  ∧ ∀ name' config' maps',
      Configuration.priority (Configuration_create name' config' maps').1 ≠ 0.
Proof.
  split.
  - unfold Configuration_create. cbn. rewrite priority_or_5_cases.
    destruct Hfalsy as [-> | [-> | ->]]; reflexivity.
  - intros name' config' maps'. unfold Configuration_create. cbn.
    apply priority_or_5_nonzero.
Qed.

Lemma create_priority_falsy_witness :
  Configuration.priority
    (Configuration_create "zero" (priority_params 0) ∅).1 = 5
  ∧ ∀ name' config' maps',
      Configuration.priority (Configuration_create name' config' maps').1 ≠ 0.
Proof.
  apply (create_priority_falsy "zero" (priority_params 0) ∅).
  right. left. reflexivity.
Defined.

(** ** The registry *)

Lemma get_set (name name' : string) (E : Configuration.t) (maps : Registry) :
  ConfigurationHandler.get name' (ConfigurationHandler.set name E maps)
  = if decide (name' = name) then Some E else ConfigurationHandler.get name' maps.
Proof.
  unfold ConfigurationHandler.get, ConfigurationHandler.set.
  case_decide as Hn.
  - subst. apply lookup_insert_eq.
  - by apply lookup_insert_ne.
Qed.

(** C9, as stated, fails: an entry registered under the empty name is stored
    and found again. *)
Lemma register_empty_name_accepted :
  let E := (Configuration_create "" no_params ∅).1 in
  ConfigurationHandler.get "" ∅ = None
  ∧ ConfigurationHandler.get "" (ConfigurationHandler.set "" E ∅) = Some E
  ∧ ConfigurationHandler.get "" (Configuration_create "" no_params ∅).2 = Some E.
Proof. cbv zeta. repeat split; apply lookup_insert_eq. Qed.

(** C9, amended.  Registration validates nothing: under any name, the empty
    one included, the entry is stored, replaces an entry of the same name,
    and leaves every other name as it was; [create] registers its entry this
    way. *)
Theorem register_overwrites (name name' : string) (E : Configuration.t)
    (config : CreateParams) (maps : Registry) :
  ConfigurationHandler.get name' (ConfigurationHandler.set name E maps)
  = (if decide (name' = name) then Some E
     else ConfigurationHandler.get name' maps)
  ∧ ConfigurationHandler.get name (Configuration_create name config maps).2
    = Some (Configuration_create name config maps).1.
Proof.
  split; [apply get_set|].
  unfold Configuration_create. cbn [fst snd].
  rewrite get_set. by case_decide.
Qed.

(** C5, as stated, fails: a description whose hooks have no callable is
    accepted by [create], which returns and registers an entry holding the
    hooks as given; the failure surfaces after the merge, when the init chain
    is executed. *)
Lemma create_malformed_accepted :
  let E := (Configuration_create "bad" malformed_params ∅).1 in
  ConfigurationHandler.get "bad" (Configuration_create "bad" malformed_params ∅).2
  = Some E
  ∧ Configuration.init E = VArr [VArr [VNull; VNum 3]; VNum 5]
  ∧ Configuration.config E = VArr [VNum 7; VNum 5]
  ∧ ∃ A', ParserConfiguration.append empty_ActiveConfiguration E = Normal A'
          ∧ ParserConfiguration.init never_stops A' [] = TypeError.
Proof.
  cbv zeta. split; [apply lookup_insert_eq|].
  split; [reflexivity|]. split; [reflexivity|].
  eexists. split; [reflexivity|]. reflexivity.
Qed.

(** C5, amended.  [create] performs no structural validation: for every
    description it returns an entry and registers it under the name, and the
    entry holds each hook as it was supplied ([null] when absent or falsy),
    paired with the entry's default priority. *)
Theorem create_never_rejects (name : string) (config : CreateParams)
    (maps : Registry) :
  let E := (Configuration_create name config maps).1 in
  ConfigurationHandler.get name (Configuration_create name config maps).2 = Some E
  ∧ Configuration.init E
    = VArr [hook_or_null (cp_init config); VNum (Configuration.priority E)]
  ∧ Configuration.config E
    = VArr [hook_or_null (cp_config config); VNum (Configuration.priority E)].
Proof.
  cbv zeta. unfold Configuration_create. cbn [fst snd].
  split; [rewrite get_set; by case_decide|].
  split; apply wrap_hook_always.
Qed.

(** ** Construction of a parser configuration *)

Lemma add_package_unknown maps l key :
  ¬ known maps key → ParserConfiguration.add_package maps l key = l.
Proof.
  unfold known, ParserConfiguration.add_package. intros Hk.
  destruct (ConfigurationHandler.get (package_name key) maps); [|done].
  exfalso. apply Hk. by eexists.
Qed.

Lemma foldl_add_package_filter maps packages l :
  foldl (ParserConfiguration.add_package maps) l packages
  = foldl (ParserConfiguration.add_package maps) l (filter (known maps) packages).
Proof.
  revert l. induction packages as [|key packages IH]; intros l; [done|].
  rewrite filter_cons. case_decide as Hk; simpl.
  - apply IH.
  - rewrite add_package_unknown by done. apply IH.
Qed.

(** C8.  Names that are not registered are skipped: construction never
    throws (the constructor is a total function), and its result is the one
    obtained from the list without the unknown names. *)
Theorem constructor_skips_unknown (packages : list Package) (maps : Registry) :
  ParserConfiguration.constructor packages maps
  = ParserConfiguration.constructor (filter (known maps) packages) maps.
Proof.
  unfold ParserConfiguration.constructor.
  by rewrite <- foldl_add_package_filter.
Qed.

(** ** Dynamic extension *)

(** C3.  For every entry made by [create], [register] throws: after the
    append step (when that one returns) it calls the entry's init field,
    which the constructor has turned into an array.  No hook is invoked, the
    handler lookup is not rebuilt and nothing is installed. *)
Theorem register_throws (this : ParserConfiguration.t) (name : string)
    (config : CreateParams) (maps : Registry) (jax : TeX) (user : OptionList)
    (trace : list Event) :
  ParserConfiguration.register this (Configuration_create name config maps).1
    jax user trace = TypeError.
Proof.
  unfold ParserConfiguration.register.
  destruct (ParserConfiguration.append _ _) as [this'|]; [|reflexivity].
  unfold Configuration_create. cbn [fst Configuration.init Configuration.constructor].
  by rewrite wrap_hook_always.
Qed.

(** ** The append step *)

Lemma for_of_push {A : Type} (xs l : list A) :
  for_of xs push (Some l) = Normal (Some (l ++ xs)).
Proof.
  revert l. induction xs as [|x xs IH]; intros l; simpl.
  - by rewrite app_nil_r.
  - rewrite IH. by rewrite <- app_assoc.
Qed.

(** The inner loop: the maps end up in front of the previous ones, the last
    one first. *)
Lemma for_of_unshift key (maps prev : list string) (hc : HandlerConfig) :
  hc !! key = Some prev →
  for_of maps (ParserConfiguration.unshift key) (Some hc)
  = Normal (Some (<[key := rev maps ++ prev]> hc)).
Proof.
  revert prev hc. induction maps as [|m maps IH]; intros prev hc Hk; simpl.
  - by rewrite insert_id.
  - rewrite Hk. simpl.
    rewrite (IH (m :: prev)) by apply lookup_insert_eq.
    rewrite insert_insert_eq. by rewrite <- app_assoc.
Qed.

Section handler_loop.
Variable hE : HandlerConfig.

Let body (h : option HandlerConfig) (key : HandlerType) :=
  for_of (default [] (hE !! key)) (ParserConfiguration.unshift key) h.

(** The outer loop over a duplicate-free list of keys. *)
Lemma for_of_keys (ks : list HandlerType) (hc : HandlerConfig) :
  NoDup ks → (∀ k, is_Some (hc !! k)) →
  ∃ hc', for_of ks body (Some hc) = Normal (Some hc')
         ∧ ∀ k, hc' !! k
                = (λ prev, (if decide (k ∈ ks)
                            then rev (default [] (hE !! k)) else []) ++ prev)
                  <$> hc !! k.
Proof.
  intros Hnd. revert hc.
  induction Hnd as [|key ks Hnotin Hnd IH]; intros hc Hall.
  - exists hc. split; [done|]. intros k.
    by destruct (hc !! k).
  - destruct (Hall key) as [prev Hprev]. simpl.
  change (body (Some hc) key)
    with (for_of (default [] (hE !! key)) (ParserConfiguration.unshift key) (Some hc)).
    rewrite (for_of_unshift _ _ prev) by done. simpl.
    destruct (IH (<[key := rev (default [] (hE !! key)) ++ prev]> hc))
      as (hc' & Hrun & Hlook).
    { intros k. destruct (decide (k = key)) as [->|Hne].
      - rewrite lookup_insert_eq. by eexists.
      - rewrite lookup_insert_ne by done. apply Hall. }
    exists hc'. split; [exact Hrun|]. intros k. rewrite Hlook.
    destruct (decide (k = key)) as [->|Hne].
    + rewrite lookup_insert_eq, Hprev. simpl.
      rewrite decide_False by done.
      rewrite decide_True by set_solver. done.
    + rewrite lookup_insert_ne by done.
      destruct (hc !! k); simpl; [|done].
      destruct (decide (k ∈ ks)) as [Hin|Hin].
      * rewrite decide_True by (by apply list_elem_of_further). done.
      * rewrite decide_False; [done|].
        intros [Heq|Hin']%elem_of_cons; done.
Qed.
End handler_loop.

Lemma handler_keys_NoDup h : NoDup (handler_keys h).
Proof.
  unfold handler_keys. apply NoDup_filter.
  apply (bool_decide_unpack _). reflexivity.
Qed.

Lemma elem_of_handler_keys h k : k ∈ handler_keys h ↔ is_Some (h !! k).
Proof.
  unfold handler_keys. rewrite list_elem_of_filter.
  split; [tauto|]. intros Hs. split; [done|].
  unfold HandlerTypes. destruct k; set_solver.
Qed.

(** The handler loops of [append] on a handler object with the four
    categories. *)
Lemma append_handler_loop (hE hA : HandlerConfig) :
  (∀ k, is_Some (hA !! k)) →
  ∃ hA', for_of (handler_keys hE)
           (λ h key, for_of (default [] (hE !! key))
                       (ParserConfiguration.unshift key) h)
           (Some hA) = Normal (Some hA')
         ∧ ∀ k, hA' !! k = (λ prev, rev (default [] (hE !! k)) ++ prev) <$> hA !! k.
Proof.
  intros Hall.
  destruct (for_of_keys hE (handler_keys hE) hA (handler_keys_NoDup hE) Hall)
    as (hA' & Hrun & Hlook).
  exists hA'. split; [exact Hrun|]. intros k. rewrite Hlook.
  destruct (hA !! k) as [prev|]; simpl; [|done].
  case_decide as Hin; [done|].
  rewrite elem_of_handler_keys in Hin.
  destruct (hE !! k) eqn:HEk; [|done]. exfalso. apply Hin. by eexists.
Qed.

Lemma get_index_truthy (hook : Value) (i : nat) :
  truthy hook = true →
  get_index hook i
  = Normal (match hook with
            | VArr elems => default VUndefined (elems !! i)
            | _ => VUndefined
            end).
Proof. by destruct hook. Qed.

(** Adding a hook never throws. *)
Lemma add_hook_returns (list : FunctionList) (hook : Value) (i j : nat) :
  ∃ list', ParserConfiguration.add_hook list hook i j = Normal list'.
Proof.
  unfold ParserConfiguration.add_hook.
  destruct (truthy hook) eqn:Ht; [|by eexists].
  rewrite !get_index_truthy by done. by eexists.
Qed.

(** [append] on a populated configuration returns, and this is its result. *)
Lemma append_populated (A : ParserConfiguration.t) (E : Configuration.t)
    hA fb it tg op nd pre post :
  ParserConfiguration.handler A = Some hA → (∀ k, is_Some (hA !! k)) →
  ParserConfiguration.fallback A = Some fb →
  ParserConfiguration.items A = Some it →
  ParserConfiguration.tags A = Some tg →
  ParserConfiguration.options A = Some op →
  ParserConfiguration.nodes A = Some nd →
  ParserConfiguration.preprocessors A = Some pre →
  ParserConfiguration.postprocessors A = Some post →
  ∃ hA' im cm,
    ParserConfiguration.append A E
    = Normal {| ParserConfiguration.initMethod := im;
                ParserConfiguration.configMethod := cm;
                ParserConfiguration.configurations :=
                  ParserConfiguration.configurations A;
                ParserConfiguration.handler := Some hA';
                ParserConfiguration.fallback := Some (Configuration.fallback E ∪ fb);
                ParserConfiguration.items := Some (Configuration.items E ∪ it);
                ParserConfiguration.tags := Some (Configuration.tags E ∪ tg);
                ParserConfiguration.options := Some (op ∪ Configuration.options E);
                ParserConfiguration.nodes := Some (Configuration.nodes E ∪ nd);
                ParserConfiguration.preprocessors :=
                  Some (pre ++ Configuration.preprocessors E);
                ParserConfiguration.postprocessors :=
                  Some (post ++ Configuration.postprocessors E) |}
    ∧ (∀ k, hA' !! k
            = (λ prev, rev (default [] (Configuration.handler E !! k)) ++ prev)
              <$> hA !! k)
    ∧ ParserConfiguration.add_hook (ParserConfiguration.initMethod A)
        (Configuration.init E) 0 0 = Normal im
    ∧ ParserConfiguration.add_hook (ParserConfiguration.configMethod A)
        (Configuration.config E) 0 1 = Normal cm.
Proof.
  intros HhA Hall Hfb Hit Htg Hop Hnd Hpre Hpost.
  destruct (append_handler_loop (Configuration.handler E) hA Hall)
    as (hA' & Hrun & Hlook).
  destruct (add_hook_returns (ParserConfiguration.initMethod A)
              (Configuration.init E) 0 0) as [im Him].
  destruct (add_hook_returns (ParserConfiguration.configMethod A)
              (Configuration.config E) 0 1) as [cm Hcm].
  exists hA', im, cm. split; [|done].
  unfold ParserConfiguration.append.
  rewrite HhA, Hrun, Hfb, Hit, Htg, Hop, Hnd, Hpre, Hpost. simpl.
  rewrite !for_of_push. simpl.
  rewrite Him, Hcm. reflexivity.
Qed.

Lemma append_returns (A : ParserConfiguration.t) (E : Configuration.t) :
  populated A →
  ∃ A', ParserConfiguration.append A E = Normal A'
    ∧ populated A'
    ∧ (∀ hA, ParserConfiguration.handler A = Some hA →
         ∃ hA', ParserConfiguration.handler A' = Some hA'
           ∧ ∀ k, hA' !! k
                  = (λ prev, rev (default [] (Configuration.handler E !! k)) ++ prev)
                    <$> hA !! k)
    ∧ (∀ pre, ParserConfiguration.preprocessors A = Some pre →
         ParserConfiguration.preprocessors A'
         = Some (pre ++ Configuration.preprocessors E))
    ∧ (∀ post, ParserConfiguration.postprocessors A = Some post →
         ParserConfiguration.postprocessors A'
         = Some (post ++ Configuration.postprocessors E))
    ∧ ParserConfiguration.add_hook (ParserConfiguration.initMethod A)
        (Configuration.init E) 0 0
      = Normal (ParserConfiguration.initMethod A')
    ∧ ParserConfiguration.add_hook (ParserConfiguration.configMethod A)
        (Configuration.config E) 0 1
      = Normal (ParserConfiguration.configMethod A').
Proof.
  intros ((hA & HhA & Hall) & [fb Hfb] & [it Hit] & [tg Htg] & [op Hop]
          & [nd Hnd] & [pre Hpre] & [post Hpost]).
  destruct (append_populated A E hA fb it tg op nd pre post)
    as (hA' & im & cm & Happ & Hlook & Him & Hcm); try done.
  eexists. split; [exact Happ|]. simpl.
  split; [|split; [|split; [|split; [|split]]]]; try done.
  - unfold populated; simpl. split; [|by repeat split].
    exists hA'. split; [done|]. intros k. rewrite Hlook.
    destruct (Hall k) as [prev ->]. by eexists.
  - intros hA0 HhA0. rewrite HhA in HhA0. injection HhA0 as <-. by exists hA'.
  - intros pre0 Hpre0. rewrite Hpre in Hpre0. by injection Hpre0 as <-.
  - intros post0 Hpost0. rewrite Hpost in Hpost0. by injection Hpost0 as <-.
Qed.

(** What a returning inner loop has done. *)
Lemma for_of_unshift_inv key (maps : list string) (h r : option HandlerConfig) :
  for_of maps (ParserConfiguration.unshift key) h = Normal r →
  (maps = [] ∧ r = h)
  ∨ ∃ hc prev, h = Some hc ∧ hc !! key = Some prev
               ∧ r = Some (<[key := rev maps ++ prev]> hc).
Proof.
  destruct maps as [|m maps]; intros Hrun.
  - left. simpl in Hrun. by injection Hrun as <-.
  - right. destruct h as [hc|]; [|discriminate Hrun].
    destruct (hc !! key) as [prev|] eqn:Hk.
    + rewrite (for_of_unshift key (m :: maps) prev hc Hk) in Hrun.
      injection Hrun as <-. by exists hc, prev.
    + simpl in Hrun. rewrite Hk in Hrun. discriminate Hrun.
Qed.

(** What a returning outer loop has done to the categories that were
    present, whether or not the others are. *)
Lemma for_of_keys_inv (hE : HandlerConfig) (ks : list HandlerType)
    (hc : HandlerConfig) (r : option HandlerConfig) :
  NoDup ks →
  for_of ks
    (λ h key, for_of (default [] (hE !! key)) (ParserConfiguration.unshift key) h)
    (Some hc) = Normal r →
  ∃ hc', r = Some hc'
    ∧ ∀ k prev, hc !! k = Some prev →
        hc' !! k = Some ((if decide (k ∈ ks)
                          then rev (default [] (hE !! k)) else []) ++ prev).
Proof.
  intros Hnd. revert hc.
  induction Hnd as [|key ks Hnotin Hnd IH]; intros hc Hrun.
  - simpl in Hrun. injection Hrun as <-. by exists hc.
  - simpl in Hrun.
    destruct (for_of (default [] (hE !! key)) (ParserConfiguration.unshift key)
                (Some hc)) as [r1|] eqn:Hinner; [|discriminate Hrun].
    simpl in Hrun.
    apply for_of_unshift_inv in Hinner
      as [[Hnil ->] | (hc0 & prev0 & Hhc0 & Hprev0 & ->)].
    + destruct (IH hc Hrun) as (hc' & -> & Hlook).
      exists hc'. split; [done|]. intros k prev Hk.
      rewrite (Hlook k prev Hk).
      destruct (decide (k = key)) as [->|Hne].
      * rewrite decide_False by done.
        rewrite decide_True by apply list_elem_of_here. by rewrite Hnil.
      * destruct (decide (k ∈ ks)) as [Hin|Hin].
        -- rewrite decide_True by (by apply list_elem_of_further). done.
        -- rewrite decide_False; [done|].
           intros [Heq|Hin']%elem_of_cons; done.
    + injection Hhc0 as <-.
      destruct (IH _ Hrun) as (hc' & -> & Hlook).
      exists hc'. split; [done|]. intros k prev Hk.
      destruct (decide (k = key)) as [->|Hne].
      * rewrite Hprev0 in Hk. injection Hk as <-.
        rewrite (Hlook key _ (lookup_insert_eq _ _ _)).
        rewrite decide_False by done.
        rewrite decide_True by apply list_elem_of_here. done.
      * rewrite (Hlook k prev) by (by rewrite lookup_insert_ne).
        destruct (decide (k ∈ ks)) as [Hin|Hin].
        -- rewrite decide_True by (by apply list_elem_of_further). done.
        -- rewrite decide_False; [done|].
           intros [Heq|Hin']%elem_of_cons; done.
Qed.

(** The stages of a returning [append]. *)
Lemma append_inv (A A' : ParserConfiguration.t) (E : Configuration.t) :
  ParserConfiguration.append A E = Normal A' →
  for_of (handler_keys (Configuration.handler E))
    (λ h key, for_of (default [] (Configuration.handler E !! key))
                (ParserConfiguration.unshift key) h)
    (ParserConfiguration.handler A) = Normal (ParserConfiguration.handler A')
  ∧ for_of (Configuration.preprocessors E) push
      (ParserConfiguration.preprocessors A)
    = Normal (ParserConfiguration.preprocessors A')
  ∧ for_of (Configuration.postprocessors E) push
      (ParserConfiguration.postprocessors A)
    = Normal (ParserConfiguration.postprocessors A')
  ∧ ParserConfiguration.add_hook (ParserConfiguration.initMethod A)
      (Configuration.init E) 0 0 = Normal (ParserConfiguration.initMethod A')
  ∧ ParserConfiguration.add_hook (ParserConfiguration.configMethod A)
      (Configuration.config E) 0 1 = Normal (ParserConfiguration.configMethod A').
Proof.
  unfold ParserConfiguration.append. intros Hrun.
  repeat match type of Hrun with
         | (?m ≫= _) = Normal _ =>
             let H := fresh "Hstage" in
             destruct m eqn:H; simpl in Hrun; [|discriminate Hrun]
         end.
  injection Hrun as <-. simpl. done.
Qed.

(** The handler rule of a returning [append]. *)
Lemma append_inv_handler (A A' : ParserConfiguration.t) (E : Configuration.t)
    (hA : HandlerConfig) (cat : HandlerType) (prev maps : list string) :
  ParserConfiguration.append A E = Normal A' →
  ParserConfiguration.handler A = Some hA → hA !! cat = Some prev →
  Configuration.handler E !! cat = Some maps →
  ∃ hA', ParserConfiguration.handler A' = Some hA'
         ∧ hA' !! cat = Some (rev maps ++ prev).
Proof.
  intros Happ HhA Hprev Hmaps.
  apply append_inv in Happ as (Hloop & _).
  rewrite HhA in Hloop.
  apply for_of_keys_inv in Hloop as (hA' & HhA' & Hlook);
    [|apply handler_keys_NoDup].
  exists hA'. split; [done|].
  rewrite (Hlook cat prev Hprev).
  rewrite decide_True by (apply elem_of_handler_keys; by eexists).
  by rewrite Hmaps.
Qed.

(** The processor rule of a returning [append]. *)
Lemma append_inv_processors (A A' : ParserConfiguration.t) (E : Configuration.t)
    (pre post : ProcessorList) :
  ParserConfiguration.append A E = Normal A' →
  ParserConfiguration.preprocessors A = Some pre →
  ParserConfiguration.postprocessors A = Some post →
  ParserConfiguration.preprocessors A'
  = Some (pre ++ Configuration.preprocessors E)
  ∧ ParserConfiguration.postprocessors A'
    = Some (post ++ Configuration.postprocessors E).
Proof.
  intros Happ Hpre Hpost.
  apply append_inv in Happ as (_ & Hpres & Hposts & _).
  rewrite Hpre, for_of_push in Hpres. rewrite Hpost, for_of_push in Hposts.
  injection Hpres as <-. injection Hposts as <-. done.
Qed.

Lemma append_handler_rev (A : ParserConfiguration.t) (E : Configuration.t)
    (hA : HandlerConfig) (cat : HandlerType) (prev maps : list string) :
  populated A →
  ParserConfiguration.handler A = Some hA → hA !! cat = Some prev →
  Configuration.handler E !! cat = Some maps →
  ∃ A' hA', ParserConfiguration.append A E = Normal A'
            ∧ populated A'
            ∧ ParserConfiguration.handler A' = Some hA'
            ∧ hA' !! cat = Some (rev maps ++ prev).
Proof.
  intros Hpop HhA Hprev Hmaps.
  destruct (append_returns A E Hpop) as (A' & Happ & Hpop' & Hh & _).
  destruct (Hh hA HhA) as (hA' & HhA' & Hlook).
  exists A', hA'. split; [done|]. split; [done|]. split; [done|].
  by rewrite Hlook, Hprev, Hmaps.
Qed.

Lemma with_macro_populated prev : populated (with_macro prev).
Proof.
  unfold populated, with_macro; simpl. split; [|by repeat split].
  eexists. split; [done|]. intros k.
  destruct (decide (k = macro)) as [->|Hne].
  - rewrite lookup_insert_eq. by eexists.
  - rewrite lookup_insert_ne by done. rewrite default_handler_lookup. by eexists.
Qed.

Lemma empty_ActiveConfiguration_populated : populated empty_ActiveConfiguration.
Proof.
  unfold populated, empty_ActiveConfiguration; simpl.
  split; [|by repeat split].
  eexists. split; [done|]. intros k. rewrite default_handler_lookup. by eexists.
Qed.

(** C1, as stated, fails: with ["prev"] as macro handlers, an entry that
    contributes ["x"; "y"] gives ["y"; "x"; "prev"], not ["x"; "y"; "prev"]. *)
Lemma append_keeps_entry_order_fails :
  (∃ A', ParserConfiguration.append (with_macro ["prev"])
           (Configuration_create "e" (macro_params ["x"; "y"]) ∅).1 = Normal A'
         ∧ ParserConfiguration.handler A' ≫= (.!! macro)
           = Some ["y"; "x"; "prev"])
  ∧ ¬ append_keeps_entry_order.
Proof.
  split.
  { eexists. split; reflexivity. }
  intros Hclaim.
  pose (A := with_macro ["prev"]).
  pose (E := (Configuration_create "e" (macro_params ["x"; "y"]) ∅).1).
  destruct (Hclaim A E (<[macro := ["prev"]]> Configuration.default_handler)
              macro ["prev"] ["x"; "y"])
    as (A1 & h1 & Happ1 & Hh1 & Hl1);
    [apply with_macro_populated | reflexivity | reflexivity | reflexivity |].
  destruct (append_inv_handler A A1 E
              (<[macro := ["prev"]]> Configuration.default_handler)
              macro ["prev"] ["x"; "y"])
    as (h2 & Hh2 & Hl2); [done | reflexivity | reflexivity | reflexivity |].
  rewrite Hh1 in Hh2. injection Hh2 as <-.
  rewrite Hl1 in Hl2. discriminate Hl2.
Qed.

(** C1, amended.  On a configuration whose merged fields are present
    [append] returns; and whenever it returns, the names the entry
    contributes to a category come before the previous names of that
    category, each one having been put in front in turn: [x; y] gives
    [y; x; ...previous]. *)
Theorem append_prepends_reversed (A : ParserConfiguration.t)
    (E : Configuration.t) (hA : HandlerConfig) (cat : HandlerType)
    (prev maps : list string) :
  ParserConfiguration.handler A = Some hA → hA !! cat = Some prev →
  Configuration.handler E !! cat = Some maps →
  (populated A → ∃ A', ParserConfiguration.append A E = Normal A')
  ∧ ∀ A', ParserConfiguration.append A E = Normal A' →
      ∃ hA', ParserConfiguration.handler A' = Some hA'
             ∧ hA' !! cat = Some (rev maps ++ prev).
Proof.
  intros HhA Hprev Hmaps. split.
  - intros Hpop. destruct (append_returns A E Hpop) as (A' & Happ & _).
    by exists A'.
  - intros A' Happ. by apply (append_inv_handler A A' E hA cat prev maps).
Qed.

Lemma append_prepends_reversed_witness :
  ∃ A' hA',
    ParserConfiguration.append (with_macro ["prev"])
      (Configuration_create "e" (macro_params ["x"; "y"]) ∅).1 = Normal A'
    ∧ ParserConfiguration.handler A' = Some hA'
    ∧ hA' !! macro = Some ["y"; "x"; "prev"].
Proof.
  destruct (append_prepends_reversed (with_macro ["prev"])
              (Configuration_create "e" (macro_params ["x"; "y"]) ∅).1
              (<[macro := ["prev"]]> Configuration.default_handler)
              macro ["prev"] ["x"; "y"] eq_refl eq_refl eq_refl)
    as [Hreturns Horder].
  destruct (Hreturns (with_macro_populated ["prev"])) as [A' Happ].
  destruct (Horder A' Happ) as (hA' & HhA' & Hlook).
  exists A', hA'. split; [exact Happ|]. split; [exact HhA'|exact Hlook].
Defined.

(** Prepend precedence: merging an entry that contributes [[a]] and then one
    that contributes [[b]] leaves [b; a; ...previous]. *)
Lemma append_twice_precedence (A : ParserConfiguration.t)
    (E1 E2 : Configuration.t) (hA : HandlerConfig) (cat : HandlerType)
    (prev : list string) (a b : string) :
  populated A →
  ParserConfiguration.handler A = Some hA → hA !! cat = Some prev →
  Configuration.handler E1 !! cat = Some [a] →
  Configuration.handler E2 !! cat = Some [b] →
  ∃ A1 A2 h2, ParserConfiguration.append A E1 = Normal A1
              ∧ ParserConfiguration.append A1 E2 = Normal A2
              ∧ ParserConfiguration.handler A2 = Some h2
              ∧ h2 !! cat = Some (b :: a :: prev).
Proof.
  intros Hpop HhA Hprev H1 H2.
  destruct (append_handler_rev A E1 hA cat prev [a] Hpop HhA Hprev H1)
    as (A1 & h1 & Happ1 & Hpop1 & Hh1 & Hl1).
  destruct (append_handler_rev A1 E2 h1 cat _ [b] Hpop1 Hh1 Hl1 H2)
    as (A2 & h2 & Happ2 & _ & Hh2 & Hl2).
  by exists A1, A2, h2.
Qed.

(** C7.  On a configuration whose merged fields are present, [append]
    returns; and whenever it returns, the entry's preprocessors and
    postprocessors come after the existing ones, in the entry's order, so
    that merging [E1] and then [E2] leaves those of [E1] before those of
    [E2]. *)
Theorem append_processors_order (A : ParserConfiguration.t)
    (E1 E2 : Configuration.t) (pre post : ProcessorList) :
  ParserConfiguration.preprocessors A = Some pre →
  ParserConfiguration.postprocessors A = Some post →
  (populated A →
     ∃ A1 A2, ParserConfiguration.append A E1 = Normal A1
              ∧ ParserConfiguration.append A1 E2 = Normal A2)
  ∧ (∀ A1, ParserConfiguration.append A E1 = Normal A1 →
       ParserConfiguration.preprocessors A1
       = Some (pre ++ Configuration.preprocessors E1)
       ∧ ParserConfiguration.postprocessors A1
         = Some (post ++ Configuration.postprocessors E1))
  ∧ (∀ A1 A2, ParserConfiguration.append A E1 = Normal A1 →
       ParserConfiguration.append A1 E2 = Normal A2 →
       ParserConfiguration.preprocessors A2
       = Some (pre ++ Configuration.preprocessors E1
                   ++ Configuration.preprocessors E2)
       ∧ ParserConfiguration.postprocessors A2
         = Some (post ++ Configuration.postprocessors E1
                      ++ Configuration.postprocessors E2)).
Proof.
  intros Hpre Hpost. split; [|split].
  - intros Hpop.
    destruct (append_returns A E1 Hpop) as (A1 & Happ1 & Hpop1 & _).
    destruct (append_returns A1 E2 Hpop1) as (A2 & Happ2 & _).
    by exists A1, A2.
  - intros A1 Happ1. by apply (append_inv_processors A A1 E1).
  - intros A1 A2 Happ1 Happ2.
    destruct (append_inv_processors A A1 E1 pre post Happ1 Hpre Hpost)
      as [Hpre1 Hpost1].
    destruct (append_inv_processors A1 A2 E2 _ _ Happ2 Hpre1 Hpost1)
      as [Hpre2 Hpost2].
    rewrite Hpre2, Hpost2. by rewrite <- !app_assoc.
Qed.

Lemma append_processors_order_witness :
  ∃ A1 A2,
    ParserConfiguration.append empty_ActiveConfiguration
      (Configuration_create "e1" (post_params [VFun "p1"]) ∅).1 = Normal A1
    ∧ ParserConfiguration.append A1
        (Configuration_create "e2" (post_params [VFun "p2"]) ∅).1 = Normal A2
    ∧ ParserConfiguration.postprocessors A1 = Some [VFun "p1"]
    ∧ ParserConfiguration.postprocessors A2 = Some [VFun "p1"; VFun "p2"].
Proof.
  destruct (append_processors_order empty_ActiveConfiguration
              (Configuration_create "e1" (post_params [VFun "p1"]) ∅).1
              (Configuration_create "e2" (post_params [VFun "p2"]) ∅).1
              [] [] eq_refl eq_refl)
    as (Hreturns & Hone & Htwo).
  destruct (Hreturns empty_ActiveConfiguration_populated)
    as (A1 & A2 & Happ1 & Happ2).
  exists A1, A2. split; [exact Happ1|]. split; [exact Happ2|].
  split.
  - exact (proj2 (Hone A1 Happ1)).
  - exact (proj2 (Htwo A1 A2 Happ1 Happ2)).
Defined.

(** What [append] adds to the two chains for an entry made by [create]: the
    init chain gets the init hook as item and, again, as priority; the ready
    chain gets the ready hook at the entry's default priority.  An absent
    hook is [null] and is added all the same. *)
Lemma append_hooks_of_created (A : ParserConfiguration.t) (name : string)
    (config : CreateParams) (maps : Registry) :
  populated A →
  let E := (Configuration_create name config maps).1 in
  ∃ A', ParserConfiguration.append A E = Normal A'
    ∧ ParserConfiguration.initMethod A'
      = PrioritizedList.add (ParserConfiguration.initMethod A)
          (hook_or_null (cp_init config)) (hook_or_null (cp_init config))
    ∧ ParserConfiguration.configMethod A'
      = PrioritizedList.add (ParserConfiguration.configMethod A)
          (hook_or_null (cp_config config))
          (VNum (Configuration.priority E)).
Proof.
  intros Hpop E.
  destruct (append_returns A E Hpop) as (A' & Happ & _ & _ & _ & _ & Him & Hcm).
  exists A'. split; [done|].
  unfold E, Configuration_create in Him, Hcm.
  cbn [fst Configuration.init Configuration.config Configuration.constructor]
    in Him, Hcm.
  rewrite !wrap_hook_always in Him, Hcm.
  cbn in Him, Hcm.
  injection Him as <-. injection Hcm as <-. done.
Qed.

(** C4.  The code at three entries, each appended to the empty active
    configuration.  With plain callables [f] and [g], the init chain gets [f]
    at priority [f] (not 5) and the ready chain [g] at 5.  With the pairs
    [[f, 3]] and [[g, 3]], each chain gets the pair itself as item, at
    priority [[f, 3]] and 5 (not 3).  Without hooks, each chain still gets
    an entry, with item [null]. *)
Theorem append_hooks_misregistered :
  let plain :=
    (Configuration_create "plain"
       (hook_params (Some (VFun "f")) (Some (VFun "g"))) ∅).1 in
  let paired :=
    (Configuration_create "paired"
       (hook_params (Some (VArr [VFun "f"; VNum 3]))
                    (Some (VArr [VFun "g"; VNum 3]))) ∅).1 in
  let hookless := (Configuration_create "hookless" no_params ∅).1 in
  (∃ A', ParserConfiguration.append empty_ActiveConfiguration plain = Normal A'
     ∧ ParserConfiguration.initMethod A'
       = [PrioritizedList.Entry (VFun "f") (VFun "f")]
     ∧ ParserConfiguration.configMethod A'
       = [PrioritizedList.Entry (VFun "g") (VNum 5)])
  ∧ (∃ A', ParserConfiguration.append empty_ActiveConfiguration paired = Normal A'
     ∧ ParserConfiguration.initMethod A'
       = [PrioritizedList.Entry (VArr [VFun "f"; VNum 3])
            (VArr [VFun "f"; VNum 3])]
     ∧ ParserConfiguration.configMethod A'
       = [PrioritizedList.Entry (VArr [VFun "g"; VNum 3]) (VNum 5)])
  ∧ (∃ A', ParserConfiguration.append empty_ActiveConfiguration hookless = Normal A'
     ∧ ParserConfiguration.initMethod A' = [PrioritizedList.Entry VNull VNull]
     ∧ ParserConfiguration.configMethod A'
       = [PrioritizedList.Entry VNull (VNum 5)]).
Proof.
  cbv zeta.
  split; [|split]; (eexists; split; [reflexivity|]; split; reflexivity).
Qed.

(** ** The priority list of the constructor *)

Lemma insert_Permutation {T : Type} (e : PrioritizedList.entry T)
    (l : PrioritizedList T) :
  PrioritizedList.insert e l ≡ₚ e :: l.
Proof.
  induction l as [|x l IH]; simpl; [done|].
  destruct (PrioritizedList.lessThan _ _); [done|].
  rewrite IH. apply Permutation_swap.
Qed.

Lemma insert_ascending {T : Type} (x : T) (p : Z) (l : PrioritizedList T)
    (zs : list Z) :
  PrioritizedList.priority <$> l = VNum <$> zs → StronglySorted Z.le zs →
  ∃ zs', PrioritizedList.priority
           <$> PrioritizedList.insert (PrioritizedList.Entry x (VNum p)) l
         = VNum <$> zs'
         ∧ StronglySorted Z.le zs' ∧ zs' ≡ₚ p :: zs.
Proof.
  revert zs. induction l as [|e l IH]; intros zs Hzs Hsorted.
  - destruct zs; [|done]. exists [p]. repeat split; [|done].
    repeat constructor.
  - destruct zs as [|z zs]; [done|].
    rewrite !fmap_cons in Hzs. injection Hzs as He Hzs.
    apply StronglySorted_inv in Hsorted as [Hsorted Hall].
    cbn [PrioritizedList.insert PrioritizedList.priority].
    rewrite He. cbn [PrioritizedList.lessThan].
    destruct (Z.ltb_spec p z) as [Hlt|Hge].
    + exists (p :: z :: zs). rewrite !fmap_cons, He, Hzs.
      split; [done|]. split; [|done].
      constructor; [by constructor|].
      constructor; [lia|].
      eapply Forall_impl; [exact Hall|]. simpl. lia.
    + destruct (IH zs Hzs Hsorted) as (zs' & Hzs' & Hsorted' & Hperm).
      exists (z :: zs'). rewrite !fmap_cons, He, Hzs'.
      split; [done|]. split.
      * constructor; [done|]. rewrite Hperm. by constructor.
      * rewrite Hperm. apply Permutation_swap.
Qed.

Lemma add_package_entry maps l key :
  ParserConfiguration.add_package maps l key
  = match package_entry maps key with
    | Some e => PrioritizedList.insert e l
    | None => l
    end.
Proof.
  unfold ParserConfiguration.add_package, package_entry.
  by destruct (ConfigurationHandler.get (package_name key) maps).
Qed.

Lemma add_package_ascending maps l key :
  ascending l → ascending (ParserConfiguration.add_package maps l key).
Proof.
  intros (zs & Hzs & Hsorted). rewrite add_package_entry.
  unfold package_entry.
  destruct (ConfigurationHandler.get (package_name key) maps) as [conf|];
    simpl; [|by exists zs].
  destruct (insert_ascending conf
              (match key with
               | PkgName _ => Configuration.priority conf
               | PkgPrio _ p => p
               end) l zs Hzs Hsorted) as (zs' & Hzs' & Hsorted' & _).
  by exists zs'.
Qed.

Lemma foldl_add_package_ascending maps packages l :
  ascending l → ascending (foldl (ParserConfiguration.add_package maps) l packages).
Proof.
  revert l. induction packages as [|key packages IH]; intros l Hl; [done|].
  simpl. apply IH. by apply add_package_ascending.
Qed.

Lemma foldl_add_package_Permutation maps packages l :
  foldl (ParserConfiguration.add_package maps) l packages
  ≡ₚ l ++ omap (package_entry maps) packages.
Proof.
  revert l. induction packages as [|key packages IH]; intros l; simpl.
  - by rewrite app_nil_r.
  - rewrite IH, add_package_entry.
    destruct (package_entry maps key) as [e|]; [|done].
    rewrite insert_Permutation. apply Permutation_middle.
Qed.

(** C2.  The code at a registry holding the entry ["base"] (macro handler
    ["m-base"], init hook [f]) and the package list [["base"]]: the
    construction that C2 and the specification describe gives the macro
    handlers ["m-base"] and calls [f]; the constructor as it stands leaves
    the handler object unset and the init chain empty, and calls nothing. *)
Lemma constructor_does_not_merge :
  let maps := (Configuration_create "base" base_params ∅).2 in
  let P := ParserConfiguration.constructor [PkgName "base"] maps in
  ParserConfiguration.handler P = None
  ∧ ParserConfiguration.initMethod P = []
  ∧ ∃ A, construct_as_specified never_stops [PkgName "base"] maps []
         = Normal (A, [Call "f" [AConfiguration]])
         ∧ ParserConfiguration.handler A ≫= (.!! macro) = Some ["m-base"]
         ∧ P ≠ A.
Proof.
  cbv zeta. split; [reflexivity|]. split; [reflexivity|].
  eexists. split; [reflexivity|]. split; [reflexivity|].
  intros Heq. apply (f_equal ParserConfiguration.handler) in Heq.
  discriminate Heq.
Qed.

(** The state in which the unfinished constructor leaves the object: the
    found entries are in the priority list, each at the explicit priority
    when the package is listed with one and at the entry's default priority
    otherwise, in ascending priority order; nothing has been merged or
    executed, so both chains are empty and the merged fields are unset. *)
Lemma constructor_collects (packages : list Package) (maps : Registry) :
  let P := ParserConfiguration.constructor packages maps in
  ParserConfiguration.configurations P ≡ₚ omap (package_entry maps) packages
  ∧ ascending (ParserConfiguration.configurations P)
  ∧ ParserConfiguration.initMethod P = []
  ∧ ParserConfiguration.configMethod P = []
  ∧ ParserConfiguration.handler P = None
  ∧ ParserConfiguration.fallback P = None
  ∧ ParserConfiguration.items P = None
  ∧ ParserConfiguration.tags P = None
  ∧ ParserConfiguration.options P = None
  ∧ ParserConfiguration.nodes P = None
  ∧ ParserConfiguration.preprocessors P = None
  ∧ ParserConfiguration.postprocessors P = None.
Proof.
  cbv zeta. unfold ParserConfiguration.constructor. simpl.
  split; [apply foldl_add_package_Permutation|].
  split; [|done].
  apply foldl_add_package_ascending. exists []. split; [done|]. constructor.
Qed.

(** ** More on the append step *)

(** Every stage of a returning [append], in the order of the source. *)
Lemma append_stages (A A' : ParserConfiguration.t) (E : Configuration.t) :
  ParserConfiguration.append A E = Normal A' →
  for_of (handler_keys (Configuration.handler E))
    (λ h key, for_of (default [] (Configuration.handler E !! key))
                (ParserConfiguration.unshift key) h)
    (ParserConfiguration.handler A) = Normal (ParserConfiguration.handler A')
  ∧ Object_assign (ParserConfiguration.fallback A) (Configuration.fallback E)
    = Normal (ParserConfiguration.fallback A')
  ∧ Object_assign (ParserConfiguration.items A) (Configuration.items E)
    = Normal (ParserConfiguration.items A')
  ∧ Object_assign (ParserConfiguration.tags A) (Configuration.tags E)
    = Normal (ParserConfiguration.tags A')
  ∧ ParserConfiguration.defaultOptions_into (ParserConfiguration.options A)
      (Configuration.options E) = Normal (ParserConfiguration.options A')
  ∧ Object_assign (ParserConfiguration.nodes A) (Configuration.nodes E)
    = Normal (ParserConfiguration.nodes A')
  ∧ for_of (Configuration.preprocessors E) push
      (ParserConfiguration.preprocessors A)
    = Normal (ParserConfiguration.preprocessors A')
  ∧ for_of (Configuration.postprocessors E) push
      (ParserConfiguration.postprocessors A)
    = Normal (ParserConfiguration.postprocessors A')
  ∧ ParserConfiguration.add_hook (ParserConfiguration.initMethod A)
      (Configuration.init E) 0 0 = Normal (ParserConfiguration.initMethod A')
  ∧ ParserConfiguration.add_hook (ParserConfiguration.configMethod A)
      (Configuration.config E) 0 1 = Normal (ParserConfiguration.configMethod A')
  ∧ ParserConfiguration.configurations A' = ParserConfiguration.configurations A.
Proof.
  unfold ParserConfiguration.append. intros Hrun.
  repeat match type of Hrun with
         | (?m ≫= _) = Normal _ =>
             let H := fresh "Hstage" in
             destruct m eqn:H; simpl in Hrun; [|discriminate Hrun]
         end.
  injection Hrun as <-. simpl. done.
Qed.

Lemma Object_assign_inv `{Countable K} {V : Type}
    (target r : option (gmap K V)) (source : gmap K V) :
  Object_assign target source = Normal r →
  ∃ t, target = Some t ∧ r = Some (source ∪ t).
Proof.
  destruct target as [t|]; simpl; intros Hrun; [|discriminate Hrun].
  injection Hrun as <-. by exists t.
Qed.

Lemma lookup_assigned `{Countable K} {V : Type} (source t : gmap K V) (k : K) :
  (source ∪ t) !! k
  = match source !! k with Some v => Some v | None => t !! k end.
Proof. rewrite lookup_union. destruct (source !! k), (t !! k); done. Qed.

Lemma for_of_push_undefined {A : Type} (xs : list A) (r : option (list A)) :
  for_of xs push None = Normal r → xs = [] ∧ r = None.
Proof.
  destruct xs as [|x xs]; simpl; intros Hrun; [|discriminate Hrun].
  by injection Hrun as <-.
Qed.

(** The categories a returning handler loop has written to were present. *)
Lemma for_of_keys_present (hE : HandlerConfig) (ks : list HandlerType)
    (h r : option HandlerConfig) :
  for_of ks
    (λ h key, for_of (default [] (hE !! key)) (ParserConfiguration.unshift key) h)
    h = Normal r →
  ∀ k, k ∈ ks → default [] (hE !! k) ≠ [] →
       ∃ hc, h = Some hc ∧ is_Some (hc !! k).
Proof.
  revert h. induction ks as [|key ks IH]; intros h Hrun k Hin Hmaps.
  - by apply elem_of_nil in Hin.
  - simpl in Hrun.
    destruct (for_of (default [] (hE !! key)) (ParserConfiguration.unshift key) h)
      as [r1|] eqn:Hinner; [|discriminate Hrun].
    simpl in Hrun.
    apply for_of_unshift_inv in Hinner
      as [[Hnil ->] | (hc0 & prev0 & -> & Hprev0 & ->)].
    + apply elem_of_cons in Hin as [->|Hin]; [done|].
      by apply (IH h Hrun).
    + exists hc0. split; [done|].
      apply elem_of_cons in Hin as [->|Hin]; [by eexists|].
      destruct (IH _ Hrun k Hin Hmaps) as (hc1 & Hhc1 & Hk).
      injection Hhc1 as <-.
      destruct (decide (k = key)) as [->|Hne]; [by eexists|].
      by rewrite lookup_insert_ne in Hk.
Qed.

(** X1.  Whenever [append] returns, each of the fallback, item, tag and node
    maps was present, and in the result a key bound by the entry has the
    entry's value while every other key keeps the value it had. *)
Theorem append_maps_last_writer (A A' : ParserConfiguration.t)
    (E : Configuration.t) :
  ParserConfiguration.append A E = Normal A' →
  (∃ old new, ParserConfiguration.fallback A = Some old
     ∧ ParserConfiguration.fallback A' = Some new
     ∧ ∀ k, new !! k = match Configuration.fallback E !! k with
                       | Some v => Some v | None => old !! k end)
  ∧ (∃ old new, ParserConfiguration.items A = Some old
     ∧ ParserConfiguration.items A' = Some new
     ∧ ∀ k, new !! k = match Configuration.items E !! k with
                       | Some v => Some v | None => old !! k end)
  ∧ (∃ old new, ParserConfiguration.tags A = Some old
     ∧ ParserConfiguration.tags A' = Some new
     ∧ ∀ k, new !! k = match Configuration.tags E !! k with
                       | Some v => Some v | None => old !! k end)
  ∧ (∃ old new, ParserConfiguration.nodes A = Some old
     ∧ ParserConfiguration.nodes A' = Some new
     ∧ ∀ k, new !! k = match Configuration.nodes E !! k with
                       | Some v => Some v | None => old !! k end).
Proof.
  intros Happ.
  apply append_stages in Happ as (_ & Hfb & Hit & Htg & _ & Hnd & _).
  apply Object_assign_inv in Hfb as (fb & Hfb & Hfb').
  apply Object_assign_inv in Hit as (it & Hit & Hit').
  apply Object_assign_inv in Htg as (tg & Htg & Htg').
  apply Object_assign_inv in Hnd as (nd & Hnd & Hnd').
  split; [|split; [|split]].
  - exists fb, (Configuration.fallback E ∪ fb).
    split; [done|]. split; [done|]. intros k. apply lookup_assigned.
  - exists it, (Configuration.items E ∪ it).
    split; [done|]. split; [done|]. intros k. apply lookup_assigned.
  - exists tg, (Configuration.tags E ∪ tg).
    split; [done|]. split; [done|]. intros k. apply lookup_assigned.
  - exists nd, (Configuration.nodes E ∪ nd).
    split; [done|]. split; [done|]. intros k. apply lookup_assigned.
Qed.

(** X2.  [append] returns only if the fallback, item, tag and node maps are
    present, the processor sequences are present unless the entry has no
    processor of that kind, and the handler object is present with every
    category to which the entry contributes a name. *)
Theorem append_returns_only_if (A A' : ParserConfiguration.t)
    (E : Configuration.t) :
  ParserConfiguration.append A E = Normal A' →
  is_Some (ParserConfiguration.fallback A)
  ∧ is_Some (ParserConfiguration.items A)
  ∧ is_Some (ParserConfiguration.tags A)
  ∧ is_Some (ParserConfiguration.nodes A)
  ∧ (Configuration.preprocessors E ≠ [] →
       is_Some (ParserConfiguration.preprocessors A))
  ∧ (Configuration.postprocessors E ≠ [] →
       is_Some (ParserConfiguration.postprocessors A))
  ∧ (∀ k maps, Configuration.handler E !! k = Some maps → maps ≠ [] →
       ∃ hA, ParserConfiguration.handler A = Some hA ∧ is_Some (hA !! k)).
Proof.
  intros Happ.
  apply append_stages in Happ
    as (Hloop & Hfb & Hit & Htg & _ & Hnd & Hpre & Hpost & _).
  apply Object_assign_inv in Hfb as (fb & -> & _).
  apply Object_assign_inv in Hit as (it & -> & _).
  apply Object_assign_inv in Htg as (tg & -> & _).
  apply Object_assign_inv in Hnd as (nd & -> & _).
  repeat (split; [by eexists|]).
  split; [|split].
  - intros Hne. destruct (ParserConfiguration.preprocessors A); [by eexists|].
    by apply for_of_push_undefined in Hpre as [? _].
  - intros Hne. destruct (ParserConfiguration.postprocessors A); [by eexists|].
    by apply for_of_push_undefined in Hpost as [? _].
  - intros k maps Hk Hmaps.
    apply (for_of_keys_present _ _ _ _ Hloop k).
    + apply elem_of_handler_keys. by eexists.
    + by rewrite Hk.
Qed.

(** X3.  A parser configuration as the constructor leaves it cannot be
    appended to: [append] throws for every entry. *)
Theorem append_after_constructor_throws (packages : list Package)
    (maps : Registry) (E : Configuration.t) :
  ParserConfiguration.append (ParserConfiguration.constructor packages maps) E
  = TypeError.
Proof.
  destruct (ParserConfiguration.append _ E) as [A'|] eqn:Happ; [|done].
  apply append_stages in Happ as (_ & Hfb & _).
  by apply Object_assign_inv in Hfb as (fb & Hfb & _).
Qed.

Lemma append_maps_last_writer_witness :
  ∃ A' new,
    ParserConfiguration.append empty_ActiveConfiguration
      (Configuration_create "b" behaviour_params ∅).1 = Normal A'
    ∧ ParserConfiguration.items A' = Some new
    ∧ ∀ k, new !! k
           = match Configuration.items
                     (Configuration_create "b" behaviour_params ∅).1 !! k with
             | Some v => Some v
             | None => (∅ : StackItemConfig) !! k
             end.
Proof.
  eexists. eexists. split; [reflexivity|].
  destruct (append_maps_last_writer empty_ActiveConfiguration _
              (Configuration_create "b" behaviour_params ∅).1 eq_refl)
    as (_ & (old & new & Hold & Hnew & Hlook) & _).
  injection Hold as <-. injection Hnew as <-.
  split; [reflexivity|]. exact Hlook.
Defined.

Lemma append_returns_only_if_witness :
  ∃ A',
    ParserConfiguration.append empty_ActiveConfiguration
      (Configuration_create "b" behaviour_params ∅).1 = Normal A'
    ∧ is_Some (ParserConfiguration.fallback empty_ActiveConfiguration)
    ∧ is_Some (ParserConfiguration.nodes empty_ActiveConfiguration).
Proof.
  eexists. split; [reflexivity|].
  destruct (append_returns_only_if empty_ActiveConfiguration _
              (Configuration_create "b" behaviour_params ∅).1 eq_refl)
    as (Hfb & _ & _ & Hnd & _).
  split; [exact Hfb | exact Hnd].
Defined.

(** What a returning handler loop has done to every category, present or
    not. *)
Lemma for_of_keys_lookup (hE : HandlerConfig) (ks : list HandlerType)
    (hc : HandlerConfig) (r : option HandlerConfig) :
  NoDup ks →
  for_of ks
    (λ h key, for_of (default [] (hE !! key)) (ParserConfiguration.unshift key) h)
    (Some hc) = Normal r →
  ∃ hc', r = Some hc'
    ∧ ∀ k, hc' !! k
           = (λ prev, (if decide (k ∈ ks)
                       then rev (default [] (hE !! k)) else []) ++ prev)
             <$> hc !! k.
Proof.
  intros Hnd Hrun.
  destruct (for_of_keys_inv hE ks hc r Hnd Hrun) as (hc' & -> & Hpresent).
  exists hc'. split; [done|]. intros k.
  destruct (hc !! k) as [prev|] eqn:Hk; [by apply Hpresent|].
  simpl. clear Hpresent. revert hc Hrun Hk.
  induction Hnd as [|key ks Hnotin Hnd IH]; intros hc Hrun Hk.
  - simpl in Hrun. by injection Hrun as <-.
  - simpl in Hrun.
    destruct (for_of (default [] (hE !! key)) (ParserConfiguration.unshift key)
                (Some hc)) as [r1|] eqn:Hinner; [|discriminate Hrun].
    simpl in Hrun.
    apply for_of_unshift_inv in Hinner
      as [[Hnil ->] | (hc0 & prev0 & Hhc0 & Hprev0 & ->)].
    + by apply (IH hc).
    + injection Hhc0 as <-. apply (IH _ Hrun).
      rewrite lookup_insert_ne; [done|]. intros ->. by rewrite Hprev0 in Hk.
Qed.

(** X4.  Whenever [append] returns on a configuration with a handler object,
    the result has the same categories, and a category to which the entry
    contributes no name keeps its list. *)
Theorem append_handler_frame (A A' : ParserConfiguration.t)
    (E : Configuration.t) (hA : HandlerConfig) :
  ParserConfiguration.append A E = Normal A' →
  ParserConfiguration.handler A = Some hA →
  ∃ hA', ParserConfiguration.handler A' = Some hA'
    ∧ dom hA' = dom hA
    ∧ ∀ k, default [] (Configuration.handler E !! k) = [] →
           hA' !! k = hA !! k.
Proof.
  intros Happ HhA.
  apply append_stages in Happ as (Hloop & _).
  rewrite HhA in Hloop.
  apply for_of_keys_lookup in Hloop as (hA' & HhA' & Hlook);
    [|apply handler_keys_NoDup].
  exists hA'. split; [done|]. split.
  - apply set_eq. intros k. rewrite !elem_of_dom, Hlook.
    by rewrite fmap_is_Some.
  - intros k Hnone. rewrite Hlook, Hnone.
    destruct (hA !! k); simpl; [|done]. by case_decide.
Qed.

Lemma append_handler_frame_witness :
  ∃ A' hA',
    ParserConfiguration.append (with_macro ["prev"])
      (Configuration_create "e" (macro_params ["x"; "y"]) ∅).1 = Normal A'
    ∧ ParserConfiguration.handler A' = Some hA'
    ∧ dom hA' = dom (<[macro := ["prev"]]> Configuration.default_handler)
    ∧ hA' !! delimiter = Some [].
Proof.
  eexists.
  destruct (append_handler_frame (with_macro ["prev"]) _
              (Configuration_create "e" (macro_params ["x"; "y"]) ∅).1
              (<[macro := ["prev"]]> Configuration.default_handler)
              eq_refl eq_refl)
    as (hA' & HhA' & Hdom & Hsame).
  exists hA'. split; [reflexivity|]. split; [exact HhA'|].
  split; [exact Hdom|]. exact (Hsame delimiter eq_refl).
Defined.

(** X5.  Whenever two successive [append]s return, the names of the second
    entry come before those of the first, which come before the previous
    ones: as if a single entry had contributed the names of the first
    followed by those of the second. *)
Theorem append_twice_handlers (A A1 A2 : ParserConfiguration.t)
    (E1 E2 : Configuration.t) (hA : HandlerConfig) (cat : HandlerType)
    (prev maps1 maps2 : list string) :
  ParserConfiguration.append A E1 = Normal A1 →
  ParserConfiguration.append A1 E2 = Normal A2 →
  ParserConfiguration.handler A = Some hA → hA !! cat = Some prev →
  Configuration.handler E1 !! cat = Some maps1 →
  Configuration.handler E2 !! cat = Some maps2 →
  ∃ h2, ParserConfiguration.handler A2 = Some h2
        ∧ h2 !! cat = Some (rev (maps1 ++ maps2) ++ prev).
Proof.
  intros Happ1 Happ2 HhA Hprev H1 H2.
  destruct (append_inv_handler A A1 E1 hA cat prev maps1 Happ1 HhA Hprev H1)
    as (h1 & Hh1 & Hl1).
  destruct (append_inv_handler A1 A2 E2 h1 cat _ maps2 Happ2 Hh1 Hl1 H2)
    as (h2 & Hh2 & Hl2).
  exists h2. split; [done|]. by rewrite Hl2, rev_app_distr, <- app_assoc.
Qed.

Lemma append_twice_handlers_witness :
  ∃ A1 A2 h2,
    ParserConfiguration.append (with_macro ["prev"])
      (Configuration_create "e1" (macro_params ["a"; "b"]) ∅).1 = Normal A1
    ∧ ParserConfiguration.append A1
        (Configuration_create "e2" (macro_params ["c"]) ∅).1 = Normal A2
    ∧ ParserConfiguration.handler A2 = Some h2
    ∧ h2 !! macro = Some ["c"; "b"; "a"; "prev"].
Proof.
  eexists. eexists.
  destruct (append_twice_handlers (with_macro ["prev"]) _ _
              (Configuration_create "e1" (macro_params ["a"; "b"]) ∅).1
              (Configuration_create "e2" (macro_params ["c"]) ∅).1
              (<[macro := ["prev"]]> Configuration.default_handler)
              macro ["prev"] ["a"; "b"] ["c"]
              eq_refl eq_refl eq_refl eq_refl eq_refl eq_refl)
    as (h2 & Hh2 & Hl2).
  exists h2. split; [reflexivity|]. split; [reflexivity|].
  split; [exact Hh2 | exact Hl2].
Defined.

Lemma add_length {T : Type} (l : PrioritizedList T) (x : T) (prio : Value) :
  length (PrioritizedList.add l x prio) = S (length l).
Proof.
  unfold PrioritizedList.add.
  by rewrite (Permutation_length (insert_Permutation _ l)).
Qed.

(** X6.  Whenever [append] returns for an entry made by [create], each of
    the two chains has exactly one entry more: the init chain one whose item
    and priority are both the init hook as stored ([null] when absent), the
    ready chain one whose item is the ready hook as stored, at the entry's
    default priority. *)
Theorem append_created_hooks (A A' : ParserConfiguration.t) (name : string)
    (config : CreateParams) (maps : Registry) :
  ParserConfiguration.append A (Configuration_create name config maps).1
  = Normal A' →
  ParserConfiguration.initMethod A'
  = PrioritizedList.add (ParserConfiguration.initMethod A)
      (hook_or_null (cp_init config)) (hook_or_null (cp_init config))
  ∧ ParserConfiguration.configMethod A'
    = PrioritizedList.add (ParserConfiguration.configMethod A)
        (hook_or_null (cp_config config))
        (VNum (priority_or_5 (cp_priority config)))
  ∧ length (ParserConfiguration.initMethod A')
    = S (length (ParserConfiguration.initMethod A))
  ∧ length (ParserConfiguration.configMethod A')
    = S (length (ParserConfiguration.configMethod A)).
Proof.
  intros Happ.
  apply append_stages in Happ as (_ & _ & _ & _ & _ & _ & _ & _ & Him & Hcm & _).
  unfold Configuration_create in Him, Hcm.
  cbn [fst Configuration.init Configuration.config Configuration.constructor]
    in Him, Hcm.
  rewrite !wrap_hook_always in Him, Hcm. cbn in Him, Hcm.
  injection Him as <-. injection Hcm as <-.
  split; [done|]. split; [done|]. split; apply add_length.
Qed.

Lemma append_created_hooks_witness :
  ∃ A',
    ParserConfiguration.append empty_ActiveConfiguration
      (Configuration_create "plain"
         (hook_params (Some (VFun "f")) (Some (VFun "g"))) ∅).1 = Normal A'
    ∧ length (ParserConfiguration.initMethod A') = 1%nat
    ∧ length (ParserConfiguration.configMethod A') = 1%nat.
Proof.
  eexists.
  destruct (append_created_hooks empty_ActiveConfiguration _ "plain"
              (hook_params (Some (VFun "f")) (Some (VFun "g"))) ∅ eq_refl)
    as (_ & _ & Hinit & Hconfig).
  split; [reflexivity|]. split; [exact Hinit | exact Hconfig].
Defined.

(** X12.  On a configuration whose merged fields are present, any sequence
    of [append]s returns and leaves such a configuration.  Its processors are
    the previous ones followed by those of the entries in merge order, and
    the handlers of a category are the names of all the entries, in reverse
    of the order in which they were contributed, before the previous ones. *)
Theorem append_sequence (Es : list Configuration.t)
    (A : ParserConfiguration.t) (pre post : ProcessorList)
    (hA : HandlerConfig) (cat : HandlerType) (prev : list string) :
  populated A →
  ParserConfiguration.preprocessors A = Some pre →
  ParserConfiguration.postprocessors A = Some post →
  ParserConfiguration.handler A = Some hA → hA !! cat = Some prev →
  ∃ A' hA',
    for_of Es ParserConfiguration.append A = Normal A'
    ∧ populated A'
    ∧ ParserConfiguration.preprocessors A'
      = Some (pre ++ (Es ≫= Configuration.preprocessors))
    ∧ ParserConfiguration.postprocessors A'
      = Some (post ++ (Es ≫= Configuration.postprocessors))
    ∧ ParserConfiguration.handler A' = Some hA'
    ∧ hA' !! cat
      = Some (rev (Es ≫= λ E, default [] (Configuration.handler E !! cat))
              ++ prev).
Proof.
  revert A pre post hA prev.
  induction Es as [|E Es IH]; intros A pre post hA prev Hpop Hpre Hpost HhA Hprev.
  - exists A, hA. simpl. by rewrite !app_nil_r.
  - destruct (append_returns A E Hpop)
      as (A1 & Happ & Hpop1 & Hh & Hpre1 & Hpost1 & _).
    destruct (Hh hA HhA) as (h1 & Hh1 & Hlook).
    specialize (Hpre1 pre Hpre). specialize (Hpost1 post Hpost).
    specialize (Hlook cat). rewrite Hprev in Hlook. simpl in Hlook.
    destruct (IH A1 _ _ h1 _ Hpop1 Hpre1 Hpost1 Hh1 Hlook)
      as (A' & hA' & Hrun & Hpop' & Hpre' & Hpost' & HhA' & Hlook').
    exists A', hA'. simpl. rewrite Happ. simpl.
    split; [done|]. split; [done|].
    rewrite Hpre', Hpost', HhA', Hlook'.
    rewrite rev_app_distr, <- !app_assoc. done.
Qed.

Lemma append_sequence_witness :
  ∃ A' hA',
    for_of [ (Configuration_create "e1" (macro_params ["a"; "b"]) ∅).1;
             (Configuration_create "e2" (macro_params ["c"]) ∅).1 ]
      ParserConfiguration.append (with_macro ["prev"]) = Normal A'
    ∧ ParserConfiguration.handler A' = Some hA'
    ∧ hA' !! macro = Some ["c"; "b"; "a"; "prev"].
Proof.
  destruct (append_sequence
              [ (Configuration_create "e1" (macro_params ["a"; "b"]) ∅).1;
                (Configuration_create "e2" (macro_params ["c"]) ∅).1 ]
              (with_macro ["prev"]) [] []
              (<[macro := ["prev"]]> Configuration.default_handler)
              macro ["prev"]
              (with_macro_populated ["prev"]) eq_refl eq_refl eq_refl eq_refl)
    as (A' & hA' & Hrun & _ & _ & _ & HhA' & Hlook).
  exists A', hA'. split; [exact Hrun|]. split; [exact HhA' | exact Hlook].
Defined.

(** ** More on entries and the registry *)

(** X10.  A supplied priority that is a number other than 0 and NaN, a
    negative one included, is the entry's default priority. *)
Theorem create_priority_kept (name : string) (config : CreateParams)
    (maps : Registry) (p : Z) :
  cp_priority config = Some (Num p) → p ≠ 0 →
  Configuration.priority (Configuration_create name config maps).1 = p.
Proof.
  intros Hp Hne. unfold Configuration_create. cbn.
  rewrite priority_or_5_cases, Hp. by rewrite decide_False.
Qed.

Lemma create_priority_kept_witness :
  Configuration.priority
    (Configuration_create "early" (priority_params (-1)) ∅).1 = -1.
Proof.
  apply (create_priority_kept "early" (priority_params (-1)) ∅ (-1)).
  - reflexivity.
  - discriminate.
Defined.

(** X9.  Creating a second entry under a name leaves the registry as if the
    first had never been created, and creating an entry adds exactly its name
    to the registered names. *)
Theorem create_overwrites_registry (name : string) (c1 c2 : CreateParams)
    (maps : Registry) :
  (Configuration_create name c2 (Configuration_create name c1 maps).2).2
  = (Configuration_create name c2 maps).2
  ∧ ConfigurationHandler.keys (Configuration_create name c1 maps).2
    = {[name]} ∪ ConfigurationHandler.keys maps.
Proof.
  unfold Configuration_create, ConfigurationHandler.set, ConfigurationHandler.keys.
  cbn [fst snd]. split.
  - apply insert_insert_eq.
  - apply dom_insert_L.
Qed.

(** ** More on the constructor and the two phases *)

Lemma package_entry_known maps key :
  is_Some (package_entry maps key) ↔ known maps key.
Proof.
  unfold package_entry, known.
  destruct (ConfigurationHandler.get (package_name key) maps); simpl.
  - split; intros _; by eexists.
  - split; intros [? ?]; done.
Qed.

Lemma omap_package_entry_length maps packages :
  length (omap (package_entry maps) packages)
  = length (filter (known maps) packages).
Proof.
  induction packages as [|key packages IH]; [done|].
  rewrite filter_cons. cbn [omap list_omap].
  destruct (package_entry maps key) as [e|] eqn:He.
  - rewrite decide_True by (apply package_entry_known; by eexists).
    cbn [length]. f_equal. exact IH.
  - rewrite decide_False; [exact IH|].
    intros Hk%package_entry_known. rewrite He in Hk. by destruct Hk.
Qed.

(** X7.  The constructor collects one entry for each listed package whose
    name is registered, a name listed several times being collected as many
    times. *)
Theorem constructor_collects_each (packages : list Package) (maps : Registry) :
  length (ParserConfiguration.configurations
            (ParserConfiguration.constructor packages maps))
  = length (filter (known maps) packages).
Proof.
  unfold ParserConfiguration.constructor. simpl.
  rewrite (Permutation_length (foldl_add_package_Permutation maps packages [])).
  apply omap_package_entry_length.
Qed.

(** X8.  On a parser configuration as the constructor leaves it, [init()]
    returns without calling anything, and [config(jax)] throws. *)
Theorem phases_after_constructor (stops : Func → bool)
    (packages : list Package) (maps : Registry) (jax : TeX)
    (trace : list Event) :
  ParserConfiguration.init stops
    (ParserConfiguration.constructor packages maps) trace = Normal trace
  ∧ ParserConfiguration.config stops
      (ParserConfiguration.constructor packages maps) jax trace = TypeError.
Proof. split; reflexivity. Qed.

(** ** Installing the processors *)

Lemma install_processor (filters : FunctionList) (p : Value)
    (e : PrioritizedList.entry Value) :
  processor_entry p = Some e →
  ParserConfiguration.install filters p
  = Normal (PrioritizedList.insert e filters).
Proof.
  destruct p as [| | b | n | f | elems]; try discriminate.
  - intros He. injection He as <-. reflexivity.
  - destruct elems as [|[| | | |f|] [|[| | |n| |] [|]]]; try discriminate.
    intros He. injection He as <-. reflexivity.
Qed.

Lemma for_of_install (ps : list Value) (es : list (PrioritizedList.entry Value))
    (filters : FunctionList) :
  processor_entry <$> ps = Some <$> es →
  ∃ r, for_of ps ParserConfiguration.install filters = Normal r
       ∧ r ≡ₚ filters ++ es.
Proof.
  revert es filters. induction ps as [|p ps IH]; intros es filters Hes.
  - destruct es; [|done]. exists filters. by rewrite app_nil_r.
  - destruct es as [|e es]; [done|].
    rewrite !fmap_cons in Hes. injection Hes as He Hes.
    destruct (IH es (PrioritizedList.insert e filters) Hes) as (r & Hrun & Hperm).
    exists r. simpl. rewrite (install_processor filters p e He). simpl.
    split; [exact Hrun|].
    rewrite Hperm, insert_Permutation. simpl. apply Permutation_middle.
Qed.

Lemma install_inv (filters r : FunctionList) (p : Value) :
  ParserConfiguration.install filters p = Normal r →
  p ≠ VNull ∧ p ≠ VUndefined ∧ length r = S (length filters).
Proof.
  unfold ParserConfiguration.install.
  destruct p as [| | b | n | f | elems]; simpl; intros Hrun;
    try discriminate Hrun;
    injection Hrun as <-; (split; [done|]); (split; [done|]); apply add_length.
Qed.

Lemma for_of_install_inv (ps : list Value) (filters r : FunctionList) :
  for_of ps ParserConfiguration.install filters = Normal r →
  Forall (λ p, p ≠ VNull ∧ p ≠ VUndefined) ps
  ∧ length r = (length filters + length ps)%nat.
Proof.
  revert filters. induction ps as [|p ps IH]; intros filters Hrun.
  - simpl in Hrun. injection Hrun as <-. split; [constructor|]. simpl. lia.
  - simpl in Hrun.
    destruct (ParserConfiguration.install filters p) as [r1|] eqn:Hone;
      [|discriminate Hrun].
    simpl in Hrun.
    apply install_inv in Hone as (Hnull & Hundef & Hlen).
    apply IH in Hrun as [Hall Hlen'].
    split; [by constructor|]. rewrite Hlen', Hlen. simpl. lia.
Qed.

(** X11.  When the processors have the declared shape (a function, or a
    pair of a function and a number) and the ready chain executes,
    [config(jax)] returns; it leaves the parse options alone and the filter
    chains hold the previous filters together with one entry for each
    processor, a function at the default priority and a pair at its own. *)
Theorem config_installs (stops : Func → bool) (this : ParserConfiguration.t)
    (jax : TeX) (trace trace' : list Event) (pres posts : ProcessorList)
    (pre_es post_es : list (PrioritizedList.entry Value)) :
  ParserConfiguration.preprocessors this = Some pres →
  ParserConfiguration.postprocessors this = Some posts →
  processor_entry <$> pres = Some <$> pre_es →
  processor_entry <$> posts = Some <$> post_es →
  FunctionList.execute stops (ParserConfiguration.configMethod this)
    [AConfiguration; AJax] trace = Normal trace' →
  ∃ jax', ParserConfiguration.config stops this jax trace = Normal (jax', trace')
    ∧ parseOptions jax' = parseOptions jax
    ∧ preFilters jax' ≡ₚ preFilters jax ++ pre_es
    ∧ postFilters jax' ≡ₚ postFilters jax ++ post_es.
Proof.
  intros Hpres Hposts Hpre_es Hpost_es Hexec.
  destruct (for_of_install pres pre_es (preFilters jax) Hpre_es)
    as (pre' & Hpre_run & Hpre_perm).
  destruct (for_of_install posts post_es (postFilters jax) Hpost_es)
    as (post' & Hpost_run & Hpost_perm).
  eexists. unfold ParserConfiguration.config.
  rewrite Hexec, Hpres, Hposts. simpl.
  rewrite Hpre_run. simpl. rewrite Hpost_run. simpl.
  split; [reflexivity|]. simpl. done.
Qed.

Lemma config_installs_witness :
  ∃ jax',
    ParserConfiguration.config never_stops with_processors bare_jax []
    = Normal (jax', [])
    ∧ preFilters jax' ≡ₚ [PrioritizedList.Entry (VFun "pre") (VNum 5)]
    ∧ postFilters jax' ≡ₚ [PrioritizedList.Entry (VFun "post") (VNum 7)].
Proof.
  destruct (config_installs never_stops with_processors bare_jax [] []
              [VFun "pre"] [VArr [VFun "post"; VNum 7]]
              [PrioritizedList.Entry (VFun "pre") (VNum 5)]
              [PrioritizedList.Entry (VFun "post") (VNum 7)]
              eq_refl eq_refl eq_refl eq_refl eq_refl)
    as (jax' & Hrun & _ & Hpre & Hpost).
  exists jax'. split; [exact Hrun|]. split; [exact Hpre | exact Hpost].
Defined.

(** X13.  [config(jax)] returns only if both processor sequences are present
    and hold neither [null] nor [undefined]; it then leaves the parse options
    alone and each filter chain has grown by one entry for each processor. *)
Theorem config_returns_only_if (stops : Func → bool)
    (this : ParserConfiguration.t) (jax jax' : TeX)
    (trace trace' : list Event) :
  ParserConfiguration.config stops this jax trace = Normal (jax', trace') →
  ∃ pres posts,
    ParserConfiguration.preprocessors this = Some pres
    ∧ ParserConfiguration.postprocessors this = Some posts
    ∧ Forall (λ p, p ≠ VNull ∧ p ≠ VUndefined) (pres ++ posts)
    ∧ parseOptions jax' = parseOptions jax
    ∧ length (preFilters jax') = (length (preFilters jax) + length pres)%nat
    ∧ length (postFilters jax') = (length (postFilters jax) + length posts)%nat.
Proof.
  unfold ParserConfiguration.config. intros Hrun.
  destruct (FunctionList.execute _ _ _ _) as [tr|]; [|discriminate Hrun].
  simpl in Hrun.
  destruct (ParserConfiguration.preprocessors this) as [pres|];
    [|discriminate Hrun].
  simpl in Hrun.
  destruct (for_of pres _ _) as [pre'|] eqn:Hpre; [|discriminate Hrun].
  simpl in Hrun.
  destruct (ParserConfiguration.postprocessors this) as [posts|];
    [|discriminate Hrun].
  simpl in Hrun.
  destruct (for_of posts _ _) as [post'|] eqn:Hpost; [|discriminate Hrun].
  simpl in Hrun. injection Hrun as <- <-. simpl.
  apply for_of_install_inv in Hpre as [Hpre_all Hpre_len].
  apply for_of_install_inv in Hpost as [Hpost_all Hpost_len].
  exists pres, posts. split; [done|]. split; [done|].
  split; [by apply Forall_app|]. done.
Qed.

Lemma config_returns_only_if_witness :
  ∃ jax',
    ParserConfiguration.config never_stops with_processors bare_jax []
    = Normal (jax', [])
    ∧ length (preFilters jax') = 1%nat
    ∧ length (postFilters jax') = 1%nat.
Proof.
  eexists.
  destruct (config_returns_only_if never_stops with_processors bare_jax _ [] []
              eq_refl)
    as (pres & posts & Hpres & Hposts & _ & _ & Hpre_len & Hpost_len).
  injection Hpres as <-. injection Hposts as <-.
  split; [reflexivity|]. split; [exact Hpre_len | exact Hpost_len].
Defined.
